(** * The SOF heap allocator: block maps, heaps and the registry

    A shallow embedding of the block allocator of the Sound Open Firmware
    tree: the registry [memmap] with its four heap classes, single-block and
    contiguous-span allocation, pointer resolution, free and realloc.

    Conventions of the embedding.
    - C integers are held in [Z].  Addresses, sizes, capability masks and the
      [info] byte counters are [uint32_t] in the source and wrap with [u32].
      The per-map counters and the header fields wrap with [uc], whose width
      comes from the platform description below.  Loop indices and the local
      [int block] of [free_block] are plain [Z]: they range over slot indices
      of one map.
    - A C array is a [list]; [a[i]] is read as a zeroed element outside the
      list and a store outside the list is dropped (stdpp's insert).  C
      leaves both undefined; the well-formedness conditions [map_ok],
      [heap_ok] and [registry_bounded] of the theorems on allocation keep
      the indices inside the arrays.
    - [panic()] does not return: operations that may reach it yield an
      [outcome], and [Fatal] is the panic.
    - The spin lock and the data-cache write-back calls have no effect on
      the data modelled here and are left out. *)

From Stdlib Require Import ZArith Lia.
From stdpp Require Import base option list.

Local Open Scope Z_scope.

(** ** Platform description *)

(** The byte store the heaps hand out. *)
Definition memory := Z -> Z.

(** What the allocator takes from headers that are outside this development
    (sof/alloc.h, platform/memory.h, sof/cpu.h, config.h): the zone
    constants, the cache alias macros, the cache line size, the debug
    switch and the width of the 'small' counter fields of [struct block_hdr]
    and [struct block_map].  [memcpy_s] is declared in arch/string.h and
    defined outside this development as well: it is taken as the store it
    leaves, its return value being dropped by its two callers. *)
Class Platform := {
  cnt_bits : Z;
  PLATFORM_DCACHE_ALIGN : Z;
  RZONE_SYS : Z;
  RZONE_SYS_RUNTIME : Z;
  RZONE_RUNTIME : Z;
  RZONE_TYPE_MASK : Z;
  RZONE_FLAG_MASK : Z;
  RZONE_FLAG_UNCACHED : Z;
  cache_to_uncache : Z -> Z;
  uncache_to_cache : Z -> Z;
  is_uncached : Z -> bool;
  CONFIG_DEBUG_BLOCK_FREE : bool;
  memcpy_s : memory -> Z -> Z -> Z -> Z -> memory
}.

(** ** Machine integers *)

Definition u32 (x : Z) : Z := x mod 2 ^ 32.

Definition uc `{Platform} (x : Z) : Z := x mod 2 ^ cnt_bits.

(** ** Data model *)

(** [struct block_hdr]: [size] is the span length recorded in the head
    header, [used] the occupancy flag. *)
Record block_hdr := mk_hdr {
  hdr_size : Z;
  hdr_used : Z
}.

(** [struct block_map]: one pool of equally sized blocks. *)
Record block_map := mk_map {
  block_size : Z;
  map_count : Z;
  free_count : Z;
  first_free : Z;
  block : list block_hdr;
  map_base : Z
}.

(** [struct mm_info]. *)
Record mm_info := mk_info {
  info_used : Z;
  info_free : Z
}.

(** [struct mm_heap]; [heap_base] is the field [heap] of the source. *)
Record mm_heap := mk_heap {
  heap_blocks : Z;
  heap_map : list block_map;
  heap_base : Z;
  heap_size : Z;
  heap_caps : Z;
  heap_info : mm_info
}.

(** [struct mm], the registry [memmap], together with the store. *)
Record mm := mk_mm {
  system : list mm_heap;
  system_runtime : list mm_heap;
  runtime : list mm_heap;
  buffer : list mm_heap;
  heap_trace_updated : Z;
  mem : memory
}.

Inductive heap_class := System | SystemRuntime | Runtime | Buffer.

(** A function that may call [panic()]. *)
Inductive outcome (A : Type) :=
| Done (a : A)
| Fatal.
Arguments Done {A} a.
Arguments Fatal {A}.

Global Instance outcome_ret : MRet outcome := fun A a => Done a.

Global Instance outcome_bind : MBind outcome := fun A B f x =>
  match x with
  | Done a => f a
  | Fatal => Fatal
  end.

(** ** Array access *)

Definition hdr0 : block_hdr := mk_hdr 0 0.
Definition map0 : block_map := mk_map 0 0 0 0 [] 0.
Definition heap0 : mm_heap := mk_heap 0 [] 0 0 0 (mk_info 0 0).

Definition hdr_at (blk : list block_hdr) (i : Z) : block_hdr :=
  default hdr0 (blk !! Z.to_nat i).

Definition map_at (h : mm_heap) (i : Z) : block_map :=
  default map0 (heap_map h !! Z.to_nat i).

Definition heap_at (hs : list mm_heap) (i : Z) : mm_heap :=
  default heap0 (hs !! Z.to_nat i).

Definition set_hdr_size (v : Z) (hd : block_hdr) : block_hdr :=
  mk_hdr v (hdr_used hd).

Definition set_hdr_used (v : Z) (hd : block_hdr) : block_hdr :=
  mk_hdr (hdr_size hd) v.

Definition set_first_free (v : Z) (m : block_map) : block_map :=
  mk_map (block_size m) (map_count m) (free_count m) v (block m) (map_base m).

Definition set_map_base (v : Z) (m : block_map) : block_map :=
  mk_map (block_size m) (map_count m) (free_count m) (first_free m)
         (block m) v.

Definition set_map (i : Z) (m : block_map) (h : mm_heap) : mm_heap :=
  mk_heap (heap_blocks h) (<[Z.to_nat i := m]> (heap_map h)) (heap_base h)
          (heap_size h) (heap_caps h) (heap_info h).

Definition set_info (inf : mm_info) (h : mm_heap) : mm_heap :=
  mk_heap (heap_blocks h) (heap_map h) (heap_base h) (heap_size h)
          (heap_caps h) inf.

Definition class_heaps (c : heap_class) (st : mm) : list mm_heap :=
  match c with
  | System => system st
  | SystemRuntime => system_runtime st
  | Runtime => runtime st
  | Buffer => buffer st
  end.

Definition set_heap (c : heap_class) (i : Z) (h : mm_heap) (st : mm) : mm :=
  let upd hs := <[Z.to_nat i := h]> hs in
  match c with
  | System =>
      mk_mm (upd (system st)) (system_runtime st) (runtime st) (buffer st)
            (heap_trace_updated st) (mem st)
  | SystemRuntime =>
      mk_mm (system st) (upd (system_runtime st)) (runtime st) (buffer st)
            (heap_trace_updated st) (mem st)
  | Runtime =>
      mk_mm (system st) (system_runtime st) (upd (runtime st)) (buffer st)
            (heap_trace_updated st) (mem st)
  | Buffer =>
      mk_mm (system st) (system_runtime st) (runtime st) (upd (buffer st))
            (heap_trace_updated st) (mem st)
  end.

Definition set_mem (m : memory) (st : mm) : mm :=
  mk_mm (system st) (system_runtime st) (runtime st) (buffer st)
        (heap_trace_updated st) m.

Definition set_trace_updated (v : Z) (st : mm) : mm :=
  mk_mm (system st) (system_runtime st) (runtime st) (buffer st) v (mem st).

(** ** Loops *)

(** [for (i = a; i < a + n; i++) if (P i) break;]: the index at which the
    loop breaks, if it does. *)
Fixpoint scan_up (P : Z -> bool) (i : Z) (n : nat) : option Z :=
  match n with
  | O => None
  | S n' => if P i then Some i else scan_up P (i + 1) n'
  end.

(** The counting loop of [alloc_cont_blocks]: unused headers among the [n]
    slots from [i] on. *)
Fixpoint count_unused (blk : list block_hdr) (i : Z) (n : nat) : Z :=
  match n with
  | O => 0
  | S n' =>
      (if hdr_used (hdr_at blk i) =? 0 then 1 else 0)
      + count_unused blk (i + 1) n'
  end.

(** The marking loop of [alloc_cont_blocks]: [used = 1] in [n] headers from
    [i] on. *)
Fixpoint mark_used (blk : list block_hdr) (i : Z) (n : nat)
  : list block_hdr :=
  match n with
  | O => blk
  | S n' => mark_used (alter (set_hdr_used 1) (Z.to_nat i) blk) (i + 1) n'
  end.

(** ** Store operations *)

Definition store (m : memory) (a v : Z) : memory :=
  fun x => if x =? a then v else m x.

Fixpoint memset (m : memory) (dest data : Z) (n : nat) : memory :=
  match n with
  | O => m
  | S n' => store (memset m dest data n') (dest + Z.of_nat n') data
  end.

Definition bzero (m : memory) (ptr bytes : Z) : memory :=
  memset m ptr 0 (Z.to_nat bytes).

Fixpoint memcpy (m : memory) (dest src : Z) (n : nat) : memory :=
  match n with
  | O => m
  | S n' => store (memcpy m dest src n') (dest + Z.of_nat n')
                  (m (src + Z.of_nat n'))
  end.

Section Allocator.
Context `{Platform}.

(** ** Heap layout *)

(** The inner loop of [init_heap_map], [n] turns from index [j] on:
    [current_map] is [&map[j-1]] at the head of every turn, and the base of
    map [j] is the end of the map it points to. *)
Fixpoint init_maps (n : nat) (j : Z) (ms : list block_map) : list block_map :=
  match n with
  | O => ms
  | S n' =>
      let current_map := default map0 (ms !! Z.to_nat (j - 1)) in
      init_maps n' (j + 1)
        (alter (set_map_base (u32 (map_base current_map
                                   + block_size current_map
                                     * map_count current_map)))
               (Z.to_nat j) ms)
  end.

(** [init_heap_map] over a whole array: [map[0]] gets the base of the heap,
    the maps [1 .. blocks - 1] follow one another. *)
Definition init_heap_map (hs : list mm_heap) : list mm_heap :=
  (fun h => mk_heap (heap_blocks h)
                    (init_maps (Z.to_nat (heap_blocks h - 1)) 1
                               (alter (set_map_base (heap_base h)) 0%nat
                                      (heap_map h)))
                    (heap_base h) (heap_size h) (heap_caps h) (heap_info h))
  <$> hs.

(** The layout in closed form, for a heap all of whose maps are laid out:
    the maps follow one another from [b] on. *)
Fixpoint layout_maps (b : Z) (ms : list block_map) : list block_map :=
  match ms with
  | [] => []
  | m :: ms' =>
      set_map_base b m
      :: layout_maps (u32 (b + block_size m * map_count m)) ms'
  end.

(** ** Single-block allocation *)

(** The header is stored at index [first_free] whatever its value.  With
    [first_free] at or past the number of headers the source writes past
    the array, into memory that is not part of the registry modelled here;
    that store is dropped, and the pointer and the counters are computed
    as the source computes them.  Statements on what an allocation leaves
    unchanged are made for maps whose hint is inside the array. *)
Definition alloc_block (h : mm_heap) (level : Z) : Z * mm_heap :=
  let m := map_at h level in
  let ff := first_free m in
  let ptr := u32 (map_base m + ff * block_size m) in
  let blk := <[Z.to_nat ff := mk_hdr 1 1]> (block m) in
  let inf := mk_info (u32 (info_used (heap_info h) + block_size m))
                     (u32 (info_free (heap_info h) - block_size m)) in
  let ff' :=
    match scan_up (fun i => hdr_used (hdr_at blk i) =? 0) ff
                  (Z.to_nat (map_count m - ff)) with
    | Some i => i
    | None => ff
    end in
  let m' := mk_map (block_size m) (map_count m) (uc (free_count m - 1)) ff'
                   blk (map_base m) in
  (ptr, set_info inf (set_map level m' h)).

(** ** Contiguous-span allocation *)

(** [count] is [bytes / block_size] rounded up; the increment cannot wrap,
    since a non-zero remainder makes the quotient smaller than [bytes]. *)
Definition span_blocks (bytes bs : Z) : Z :=
  if bytes mod bs =? 0 then bytes / bs else bytes / bs + 1.

Definition alloc_cont_blocks (h : mm_heap) (level : Z) (bytes : Z)
  : Z * mm_heap :=
  let m := map_at h level in
  let count := span_blocks bytes (block_size m) in
  let remaining :=
    count_unused (block m) (first_free m)
                 (Z.to_nat (map_count m - first_free m)) in
  if (map_count m <? count) || (remaining <? count) then (0, h)
  else
    let start := first_free m in
    let ptr := u32 (map_base m + start * block_size m) in
    let blk := alter (set_hdr_size (uc count)) (Z.to_nat start) (block m) in
    let inf := mk_info (u32 (info_used (heap_info h) + count * block_size m))
                       (u32 (info_free (heap_info h) - count * block_size m))
    in
    let blk := mark_used blk start (Z.to_nat (count - start)) in
    let m' := mk_map (block_size m) (map_count m) (uc (free_count m - count))
                     (uc (first_free m + count)) blk (map_base m) in
    (ptr, set_info inf (set_map level m' h)).

(** ** Pointer and capability resolution *)

Definition in_heap (h : mm_heap) (ptr : Z) : bool :=
  (heap_base h <=? ptr) && (ptr <? u32 (heap_base h + heap_size h)).

(** The result names the array and the index of the heap found, as the
    source returns a pointer into one of the registry arrays.  The array
    bounds PLATFORM_HEAP_RUNTIME and PLATFORM_HEAP_BUFFER are the lengths of
    the lists. *)
Definition get_heap_from_ptr (cpu ptr : Z) (st : mm)
  : option (heap_class * Z) :=
  if in_heap (heap_at (system_runtime st) cpu) ptr
  then Some (SystemRuntime, cpu)
  else
    match scan_up (fun i => in_heap (heap_at (runtime st) i) ptr) 0
                  (length (runtime st)) with
    | Some i => Some (Runtime, i)
    | None =>
        match scan_up (fun i => in_heap (heap_at (buffer st) i) ptr) 0
                      (length (buffer st)) with
        | Some i => Some (Buffer, i)
        | None => None
        end
    end.

Definition caps_match (h : mm_heap) (caps : Z) : bool :=
  Z.land (heap_caps h) caps =? caps.

(** [hs] is the array the pointer argument points into; the result is the
    index of the heap found, [None] for NULL. *)
Definition get_heap_from_caps (hs : list mm_heap) (count : Z) (caps : Z)
  : option Z :=
  scan_up (fun i => caps_match (heap_at hs i) caps) 0 (Z.to_nat count).

Definition uncached_zone (zone : Z) : bool :=
  Z.land zone RZONE_FLAG_MASK =? RZONE_FLAG_UNCACHED.

Definition is_null (ptr : Z) : bool := ptr =? 0.

Definition get_ptr_from_heap (h : mm_heap) (zone caps bytes : Z)
  : Z * mm_heap :=
  match scan_up (fun i => negb (block_size (map_at h i) <? bytes)
                          && negb (free_count (map_at h i) =? 0))
                0 (Z.to_nat (heap_blocks h)) with
  | Some i =>
      let '(ptr, h') := alloc_block h i in
      (if negb (is_null ptr) && uncached_zone zone
       then cache_to_uncache ptr else ptr, h')
  | None => (0, h)
  end.

(** ** Free *)

(** The clearing loop of [free_block]: [n] headers from [i] on. *)
Fixpoint free_loop (n : nat) (i : Z) (m : block_map) (inf : mm_info)
  : block_map * mm_info :=
  match n with
  | O => (m, inf)
  | S n' =>
      free_loop n' (i + 1)
        (mk_map (block_size m) (map_count m) (uc (free_count m + 1))
                (first_free m) (<[Z.to_nat i := mk_hdr 0 0]> (block m))
                (map_base m))
        (mk_info (u32 (info_used inf - block_size m))
                 (u32 (info_free inf + block_size m)))
  end.

Definition DEBUG_BLOCK_FREE_VALUE_8BIT : Z := 0xa5.

(** [free_block] from the search for the block map on, the heap being
    resolved.  [validate_memory] only traces. *)
Definition free_block_at (ptr : Z) (h : mm_heap) (mu : memory)
  : outcome (mm_heap * memory) :=
  match scan_up (fun i => ptr <? u32 (map_base (map_at h i)
                                      + block_size (map_at h i)
                                        * map_count (map_at h i)))
                0 (Z.to_nat (heap_blocks h)) with
  | None => Done (h, mu)
  | Some i =>
      let m := map_at h i in
      let blk := u32 (ptr - map_base m) / block_size m in
      if negb (u32 (map_base m + block_size m * blk) =? ptr) then Fatal
      else
        let n := Z.to_nat (hdr_size (hdr_at (block m) blk)) in
        let '(m1, inf) := free_loop n blk m (heap_info h) in
        let m2 := if blk <? first_free m1 then set_first_free blk m1
                  else m1 in
        Done (set_info inf (set_map i m2 h),
              if CONFIG_DEBUG_BLOCK_FREE
              then memset mu (u32 (map_base m + block_size m * blk))
                          DEBUG_BLOCK_FREE_VALUE_8BIT
                          (Z.to_nat (block_size m * Z.of_nat n))
              else mu)
  end.

Definition free_block (cpu ptr : Z) (st : mm) : outcome mm :=
  match get_heap_from_ptr cpu ptr st with
  | None => Done st
  | Some (c, k) =>
      '(h', mu) ← free_block_at ptr (heap_at (class_heaps c st) k) (mem st);
      Done (set_mem mu (set_heap c k h' st))
  end.

(** ** Zone allocators *)

Definition rmalloc_sys (zone caps core bytes : Z) (st : mm)
  : outcome (Z * mm) :=
  let cpu_heap := heap_at (system st) core in
  if negb (caps_match cpu_heap caps) then Fatal
  else
    let used := info_used (heap_info cpu_heap) in
    let alignment :=
      if used mod PLATFORM_DCACHE_ALIGN =? 0 then 0
      else PLATFORM_DCACHE_ALIGN - used mod PLATFORM_DCACHE_ALIGN in
    if info_free (heap_info cpu_heap) <? u32 (alignment + bytes) then Fatal
    else
      let used1 := u32 (used + alignment) in
      let ptr := u32 (heap_base cpu_heap + used1) in
      let inf := mk_info (u32 (used1 + bytes))
                         (u32 (info_free (heap_info cpu_heap)
                               - (alignment + bytes))) in
      Done (if uncached_zone zone then cache_to_uncache ptr else ptr,
            set_heap System core (set_info inf cpu_heap) st).

Definition rmalloc_sys_runtime (zone caps core bytes : Z) (st : mm)
  : outcome (Z * mm) :=
  let cpu_heap := heap_at (system_runtime st) core in
  if negb (caps_match cpu_heap caps) then Fatal
  else
    let '(ptr, h') := get_ptr_from_heap cpu_heap zone caps bytes in
    Done (ptr, set_heap SystemRuntime core h' st).

Definition rmalloc_runtime (zone caps bytes : Z) (st : mm) : Z * mm :=
  match get_heap_from_caps (runtime st) (Z.of_nat (length (runtime st))) caps with
  | Some i =>
      let '(ptr, h') :=
        get_ptr_from_heap (heap_at (runtime st) i) zone caps bytes in
      (ptr, set_heap Runtime i h' st)
  | None =>
      match get_heap_from_caps (buffer st) (Z.of_nat (length (buffer st))) caps with
      | Some i =>
          let '(ptr, h') :=
            get_ptr_from_heap (heap_at (buffer st) i) zone caps bytes in
          (ptr, set_heap Buffer i h' st)
      | None => (0, st)
      end
  end.

Definition _malloc_unlocked (zone caps bytes cpu : Z) (st : mm)
  : outcome (Z * mm) :=
  let type := Z.land zone RZONE_TYPE_MASK in
  '(ptr, st1) ←
    (if type =? RZONE_SYS then rmalloc_sys zone caps cpu bytes st
     else if type =? RZONE_SYS_RUNTIME
          then rmalloc_sys_runtime zone caps cpu bytes st
     else if type =? RZONE_RUNTIME
          then Done (rmalloc_runtime zone caps bytes st)
     else Fatal);
  let st2 := if CONFIG_DEBUG_BLOCK_FREE && negb (is_null ptr)
             then set_mem (bzero (mem st1) ptr bytes) st1 else st1 in
  Done (ptr, set_trace_updated 1 st2).

Definition _malloc (zone caps bytes cpu : Z) (st : mm) : outcome (Z * mm) :=
  _malloc_unlocked zone caps bytes cpu st.

Definition _zalloc (zone caps bytes cpu : Z) (st : mm) : outcome (Z * mm) :=
  '(ptr, st1) ← _malloc zone caps bytes cpu st;
  Done (ptr, if is_null ptr then st1
             else set_mem (bzero (mem st1) ptr bytes) st1).

Definition rzalloc_core_sys (core bytes : Z) (st : mm) : outcome (Z * mm) :=
  '(ptr, st1) ← rmalloc_sys RZONE_SYS 0 core bytes st;
  Done (ptr, if is_null ptr then st1
             else set_mem (bzero (mem st1) ptr bytes) st1).

(** ** Buffer allocation *)

(** The downward loop of [alloc_heap_buffer] over the maps below [n]. *)
Fixpoint cont_scan (n : nat) (h : mm_heap) (bytes : Z) : Z * mm_heap :=
  match n with
  | O => (0, h)
  | S i =>
      if negb (heap_size h <? bytes)
         && (block_size (map_at h (Z.of_nat i)) <? bytes)
      then
        let '(ptr, h') := alloc_cont_blocks h (Z.of_nat i) bytes in
        if is_null ptr then cont_scan i h' bytes else (ptr, h')
      else cont_scan i h bytes
  end.

Definition alloc_heap_buffer (h : mm_heap) (zone caps bytes : Z)
  (mu : memory) : Z * mm_heap * memory :=
  let '(ptr, h1) :=
    match scan_up (fun i => negb (block_size (map_at h i) <? bytes)
                            && negb (free_count (map_at h i) =? 0))
                  0 (Z.to_nat (heap_blocks h)) with
    | Some i => alloc_block h i
    | None => (0, h)
    end in
  let '(ptr, h2) :=
    if is_null ptr then cont_scan (Z.to_nat (heap_blocks h1)) h1 bytes
    else (ptr, h1) in
  let ptr := if negb (is_null ptr) && uncached_zone zone
             then cache_to_uncache ptr else ptr in
  (ptr, h2,
   if CONFIG_DEBUG_BLOCK_FREE && negb (is_null ptr) then bzero mu ptr bytes
   else mu).

(** The loop of [_balloc_unlocked]; [i] is the loop index and the heap
    pointer is [&memmap.buffer[i]].  The index grows at every turn, so the
    length of the array is fuel enough. *)
Fixpoint balloc_loop (fuel : nat) (i : Z) (zone caps bytes : Z) (st : mm)
  : Z * mm :=
  match fuel with
  | O => (0, st)
  | S fuel' =>
      let n := Z.of_nat (length (buffer st)) in
      if i <? n then
        match get_heap_from_caps (drop (Z.to_nat i) (buffer st)) (n - i)
                                 caps with
        | None => (0, st)
        | Some j =>
            let k := i + j in
            let '(ptr, h', mu) :=
              alloc_heap_buffer (heap_at (buffer st) k) zone caps bytes
                                (mem st) in
            let st' := set_mem mu (set_heap Buffer k h' st) in
            if is_null ptr then balloc_loop fuel' (k + 1) zone caps bytes st'
            else (ptr, st')
        end
      else (0, st)
  end.

Definition _balloc_unlocked (zone caps bytes : Z) (st : mm) : Z * mm :=
  balloc_loop (length (buffer st)) 0 zone caps bytes st.

Definition _balloc (zone caps bytes : Z) (st : mm) : Z * mm :=
  _balloc_unlocked zone caps bytes st.

(** ** Free and realloc entry points *)

Definition _rfree_unlocked (cpu ptr : Z) (st : mm) : outcome mm :=
  if is_null ptr then Done st
  else
    let ptr := if is_uncached ptr then uncache_to_cache ptr else ptr in
    let cpu_heap := heap_at (system st) cpu in
    if in_heap cpu_heap ptr then Fatal
    else
      st' ← free_block cpu ptr st;
      Done (set_trace_updated 1 st').

Definition rfree (cpu ptr : Z) (st : mm) : outcome mm :=
  _rfree_unlocked cpu ptr st.

Definition _realloc (ptr zone caps bytes cpu : Z) (st : mm)
  : outcome (Z * mm) :=
  if bytes =? 0 then Done (0, st)
  else
    '(new_ptr, st1) ← _malloc_unlocked zone caps bytes cpu st;
    let st2 := if negb (is_null new_ptr) && negb (is_null ptr)
               then set_mem (memcpy_s (mem st1) new_ptr bytes ptr bytes) st1
               else st1 in
    st3 ← (if negb (is_null new_ptr) then _rfree_unlocked cpu ptr st2
           else Done st2);
    Done (new_ptr, st3).

Definition _brealloc (ptr zone caps bytes cpu : Z) (st : mm)
  : outcome (Z * mm) :=
  if bytes =? 0 then Done (0, st)
  else
    let '(new_ptr, st1) := _balloc_unlocked zone caps bytes st in
    let st2 := if negb (is_null new_ptr) && negb (is_null ptr)
               then set_mem (memcpy_s (mem st1) new_ptr bytes ptr bytes) st1
               else st1 in
    st3 ← (if negb (is_null new_ptr) then _rfree_unlocked cpu ptr st2
           else Done st2);
    Done (new_ptr, st3).

End Allocator.

(** * Statements: predicates used by the theorems *)

Section Predicates.
Context `{Platform}.

(** The address [_rfree_unlocked] works on. *)
Definition cached_address (ptr : Z) : Z :=
  if is_uncached ptr then uncache_to_cache ptr else ptr.

Definition caps_contain (h : mm_heap) (caps : Z) : Prop :=
  Z.land (heap_caps h) caps = caps.

(** Heap [i] of the array is the first whose mask contains [caps]. *)
Definition first_match (hs : list mm_heap) (caps : Z) (i : Z) : Prop :=
  0 <= i < Z.of_nat (length hs)
  /\ caps_contain (heap_at hs i) caps
  /\ forall k, 0 <= k < i -> ~ caps_contain (heap_at hs k) caps.

(** No heap of the array has a mask that contains [caps]. *)
Definition no_match (hs : list mm_heap) (caps : Z) : Prop :=
  forall k, 0 <= k < Z.of_nat (length hs) -> ~ caps_contain (heap_at hs k) caps.

(** The sum the capacity invariant compares with the size of the heap. *)
Definition info_sum (inf : mm_info) : Z :=
  u32 (info_used inf + info_free inf).

(** First address past the blocks of a map. *)
Definition map_end (m : block_map) : Z :=
  map_base m + block_size m * map_count m.

(** Map [i] is the one [free_block] settles on for [ptr]: the first map of
    the heap whose end lies above [ptr]. *)
Definition map_of_ptr (h : mm_heap) (ptr : Z) (i : Z) : Prop :=
  0 <= i < heap_blocks h
  /\ ptr < u32 (map_end (map_at h i))
  /\ forall k, 0 <= k < i -> u32 (map_end (map_at h k)) <= ptr.

(** A block map as the registry declares it: a positive block size, as
    many headers as [count] says, blocks inside the 32-bit address space
    and counters inside their field. *)
Definition map_ok (m : block_map) : Prop :=
  0 < block_size m
  /\ 0 <= map_base m
  /\ map_end m < 2 ^ 32
  /\ map_count m = Z.of_nat (length (block m))
  /\ map_count m < 2 ^ cnt_bits
  /\ 0 <= first_free m
  /\ 0 <= free_count m < 2 ^ cnt_bits.

(** A heap as [init_heap_map] lays it out: [blocks] maps, each well formed,
    in ascending address order without overlap, and byte counters inside
    their field. *)
Definition heap_ok (h : mm_heap) : Prop :=
  heap_blocks h = Z.of_nat (length (heap_map h))
  /\ (forall j m, heap_map h !! j = Some m -> map_ok m)
  /\ (forall j k mj mk, (j < k)%nat ->
        heap_map h !! j = Some mj -> heap_map h !! k = Some mk ->
        map_end mj <= map_base mk)
  /\ 0 <= info_used (heap_info h) < 2 ^ 32
  /\ 0 <= info_free (heap_info h) < 2 ^ 32.

(** The address a map hands out next, for a single block as for a span. *)
Definition next_slot (m : block_map) : Z :=
  u32 (map_base m + first_free m * block_size m).

(** No map of the heap would hand out the null address. *)
Definition heap_slots_nonnull (h : mm_heap) : Prop :=
  forall m, m ∈ heap_map h -> next_slot m <> 0.

(** The same for every heap with block maps in the registry. *)
Definition slots_nonnull (st : mm) : Prop :=
  forall c h, c <> System -> h ∈ class_heaps c st -> heap_slots_nonnull h.

(** The uncached alias of a non-null address is not null. *)
Definition alias_nonnull : Prop :=
  forall p, p <> 0 -> cache_to_uncache p <> 0.

(** The block heaps and the store of [st'] are those of [st]. *)
Definition blocks_and_store_unchanged (st st' : mm) : Prop :=
  system_runtime st' = system_runtime st
  /\ runtime st' = runtime st
  /\ buffer st' = buffer st
  /\ mem st' = mem st.

(** The two realloc entry points and the allocation each starts with. *)
Inductive realloc_variant := ZoneRealloc | BufferRealloc.

Definition new_allocation (v : realloc_variant) (zone caps bytes cpu : Z)
  (st : mm) : outcome (Z * mm) :=
  match v with
  | ZoneRealloc => _malloc_unlocked zone caps bytes cpu st
  | BufferRealloc => Done (_balloc_unlocked zone caps bytes st)
  end.

Definition reallocate (v : realloc_variant) (ptr zone caps bytes cpu : Z)
  (st : mm) : outcome (Z * mm) :=
  match v with
  | ZoneRealloc => _realloc ptr zone caps bytes cpu st
  | BufferRealloc => _brealloc ptr zone caps bytes cpu st
  end.

End Predicates.

(** * The rest of the allocator: reset, boot-time layout, diagnostics and
    the checked copy *)

(** PLATFORM_MASTER_CORE_ID of platform/platform.h. *)
Definition PLATFORM_MASTER_CORE_ID : Z := 0.

(** Error numbers of errno.h, returned negated. *)
Definition EINVAL : Z := 22.

(** [arch_memcpy_s] with its return code.  Pointers are 32 bits wide, as
    the casts to [uint32_t] of the allocator have them, so the two end
    addresses [dest + dest_size] and [src + src_size] wrap. *)
Definition arch_memcpy_s (m : memory) (dest dest_size src src_size : Z)
  : Z * memory :=
  let dest_end := u32 (dest + dest_size) in
  let src_end := u32 (src + src_size) in
  if (dest =? 0) || (src =? 0) then (- EINVAL, m)
  else if ((src <=? dest_end) && (dest_end <=? src_end))
          || ((dest <=? src_end) && (src_end <=? dest_end))
  then (- EINVAL, m)
  else if dest_size <? src_size then (- EINVAL, m)
  else (0, memcpy m dest src (Z.to_nat src_size)).

(** [arch_memset_s] (and [memset_s], whose body is the same: [memset]
    returns its destination, which is not null there).  [memset] stores the
    fill value converted to [unsigned char]. *)
Definition arch_memset_s (m : memory) (dest dest_size data count : Z)
  : Z * memory :=
  if dest =? 0 then (- EINVAL, m)
  else if dest_size <? count then (- EINVAL, m)
  else (0, memset m dest (data mod 256) (Z.to_nat count)).

(** The inner and the outer loop of [write_pattern]: [n] maps of a heap
    from [j] on, [n] heaps of an array from [i] on. *)
Fixpoint pattern_maps (h : mm_heap) (j : Z) (n : nat) (pattern : Z)
  (mu : memory) : memory :=
  match n with
  | O => mu
  | S n' =>
      pattern_maps h (j + 1) n' pattern
        (memset mu (map_base (map_at h j)) pattern
                (Z.to_nat (map_count (map_at h j)
                           * block_size (map_at h j))))
  end.

Fixpoint pattern_heaps (hs : list mm_heap) (i : Z) (n : nat) (pattern : Z)
  (mu : memory) : memory :=
  match n with
  | O => mu
  | S n' =>
      pattern_heaps hs (i + 1) n' pattern
        (pattern_maps (heap_at hs i) 0
                      (Z.to_nat (heap_blocks (heap_at hs i))) pattern mu)
  end.

Definition write_pattern (heap_map_ : list mm_heap) (heap_depth : Z)
  (pattern : Z) (mu : memory) : memory :=
  pattern_heaps heap_map_ 0 (Z.to_nat heap_depth) pattern mu.

(** The do-while loop of [alloc_trace_runtime_heap] and
    [alloc_trace_buffer_heap]: every turn looks the heap up in the same
    array and goes round again when one was found.  The traces it prints
    are not modelled; the result is [count] when the loop is left and
    [None] when the fuel runs out first. *)
Fixpoint trace_heap_loop (fuel : nat) (hs : list mm_heap) (caps count : Z)
  : option Z :=
  match fuel with
  | O => None
  | S fuel' =>
      match get_heap_from_caps hs (Z.of_nat (length hs)) caps with
      | Some _ => trace_heap_loop fuel' hs caps (count + 1)
      | None => Some count
      end
  end.

Definition alloc_trace_runtime_heap (fuel : nat) (caps : Z) (st : mm)
  : option Z :=
  trace_heap_loop fuel (runtime st) caps 0.

Definition alloc_trace_buffer_heap (fuel : nat) (caps : Z) (st : mm)
  : option Z :=
  trace_heap_loop fuel (buffer st) caps 0.

Section MoreModel.
Context `{Platform}.

(** [free_heap]: the wholesale reset of the System heap of a core. *)
Definition free_heap (zone cpu : Z) (st : mm) : outcome mm :=
  if (cpu =? PLATFORM_MASTER_CORE_ID) || negb (zone =? RZONE_SYS) then Fatal
  else
    let cpu_heap := heap_at (system st) cpu in
    Done (set_heap System cpu
            (set_info (mk_info 0 (heap_size cpu_heap)) cpu_heap) st).

(** [init_heap]; [_system_heap_start] is the address of the linker
    symbol. *)
Definition init_heap (_system_heap_start : Z) (st : mm) : outcome mm :=
  if negb (heap_base (heap_at (system st) 0) =? _system_heap_start)
  then Fatal
  else
    let st1 := mk_mm (system st) (init_heap_map (system_runtime st))
                     (init_heap_map (runtime st))
                     (init_heap_map (buffer st))
                     (heap_trace_updated st) (mem st) in
    Done (if CONFIG_DEBUG_BLOCK_FREE
          then set_mem
                 (write_pattern (runtime st1)
                    (Z.of_nat (length (runtime st1)))
                    DEBUG_BLOCK_FREE_VALUE_8BIT
                    (write_pattern (buffer st1)
                       (Z.of_nat (length (buffer st1)))
                       DEBUG_BLOCK_FREE_VALUE_8BIT (mem st1)))
                 st1
          else st1).

(** ** Statements *)




(** Every header below the hint is in use: the hint is not above the
    lowest free block. *)
Definition below_hint_used (m : block_map) : Prop :=
  forall j, 0 <= j < first_free m -> hdr_used (hdr_at (block m) j) <> 0.

(** The byte range [[a, a + n)]. *)
Definition in_range (a n x : Z) : Prop := a <= x < a + n.

(** A System heap whose counters add up to its size and which lies inside
    the address space. *)
Definition sys_heap_ok (h : mm_heap) : Prop :=
  0 <= heap_base h
  /\ heap_base h + heap_size h < 2 ^ 32
  /\ 0 <= info_used (heap_info h)
  /\ 0 <= info_free (heap_info h)
  /\ info_used (heap_info h) + info_free (heap_info h) = heap_size h.

(** The sizes of the maps of a heap, added up. *)
Definition maps_bytes (ms : list block_map) : Z :=
  foldr (fun m acc => block_size m * map_count m + acc) 0 ms.

(** The pointer a zone hands out for a block at cached address [p]. *)
Definition zone_alias (zone p : Z) : Z :=
  if negb (is_null p) && uncached_zone zone then cache_to_uncache p else p.

(** [memcpy_s] does to the store what its inline form [arch_memcpy_s]
    does. *)
Definition memcpy_s_checked : Prop :=
  forall m dest dest_size src src_size,
    memcpy_s m dest dest_size src src_size
    = snd (arch_memcpy_s m dest dest_size src src_size).

(** The header stores of the allocator stay inside the header array of a
    map: the block size is positive, the array has [count] headers, a map
    that counts free blocks has its hint on one of them, and the span a
    header records ends inside the array. *)
Definition map_bounded (m : block_map) : bool :=
  (0 <? block_size m)
  && (map_count m =? Z.of_nat (length (block m)))
  && (0 <=? first_free m)
  && ((free_count m =? 0) || (first_free m <? map_count m))
  && forallb (fun b => b)
       (imap (fun j hd => (0 <=? hdr_size hd)
                          && (Z.of_nat j + hdr_size hd <=? map_count m))
             (block m)).

(** The maps follow one another from [b] on, as [init_heap_map] lays them
    out. *)
Fixpoint maps_tiled (b : Z) (ms : list block_map) : bool :=
  match ms with
  | [] => true
  | m :: ms' =>
      (map_base m =? b)
      && maps_tiled (b + block_size m * map_count m) ms'
  end.

(** The same for a heap: it has [blocks] maps, each of them bounded, and
    they tile the heap from its base on inside the 32-bit address space,
    so that the block index [free_block] computes for a pointer of the
    heap is the index of a header.  And for the heaps with block maps of
    the registry. *)
Definition heap_bounded (h : mm_heap) : bool :=
  (heap_blocks h =? Z.of_nat (length (heap_map h)))
  && forallb map_bounded (heap_map h)
  && (0 <=? heap_base h)
  && maps_tiled (heap_base h) (heap_map h)
  && (heap_base h + maps_bytes (heap_map h) <? 2 ^ 32).

(** Every heap with block maps declares at least one map and as many as
    its array holds, so that the stores of [init_heap_map] stay inside the
    arrays. *)
Definition heap_declared (h : mm_heap) : bool :=
  (1 <=? heap_blocks h)
  && (heap_blocks h =? Z.of_nat (length (heap_map h))).

Definition registry_declared (st : mm) : bool :=
  forallb heap_declared (system_runtime st)
  && forallb heap_declared (runtime st)
  && forallb heap_declared (buffer st).


End MoreModel.

(** * Concrete registries and call sequences *)

(** A platform without a separate uncached alias: the alias macros are the
    identity, counter fields are 16 bits wide, the debug fill is off, and
    [memcpy_s] is the inline [arch_memcpy_s]. *)
Definition host : Platform := {|
  cnt_bits := 16;
  PLATFORM_DCACHE_ALIGN := 64;
  RZONE_SYS := 1;
  RZONE_SYS_RUNTIME := 8;
  RZONE_RUNTIME := 2;
  RZONE_TYPE_MASK := 15;
  RZONE_FLAG_MASK := 240;
  RZONE_FLAG_UNCACHED := 16;
  cache_to_uncache := fun a => a;
  uncache_to_cache := fun a => a;
  is_uncached := fun _ => false;
  CONFIG_DEBUG_BLOCK_FREE := false;
  memcpy_s := fun m dest dest_size src src_size =>
                snd (arch_memcpy_s m dest dest_size src src_size)
|}.

(** Zone argument of the buffer allocator in the call sequences; only its
    flag bits are read. *)
Definition ZONE_BUFFER : Z := 4.

(** Number of headers with [used == 1]. *)
Fixpoint used_headers (blk : list block_hdr) : Z :=
  match blk with
  | [] => 0
  | hd :: blk' => (if hdr_used hd =? 1 then 1 else 0) + used_headers blk'
  end.

(** The capacity invariant of one map and of one heap, as tests. *)
Definition map_capacity_ok (m : block_map) : bool :=
  free_count m =? map_count m - used_headers (block m).

Definition heap_capacity_ok (h : mm_heap) : bool :=
  (u32 (info_used (heap_info h) + info_free (heap_info h)) =? heap_size h)
  && forallb map_capacity_ok (heap_map h).

Definition capacity_ok (st : mm) : bool :=
  forallb heap_capacity_ok
          (system st ++ system_runtime st ++ runtime st ++ buffer st).

(** A map of [n] free blocks of [bs] bytes at [b]. *)
Definition fresh_map (bs n b : Z) : block_map :=
  mk_map bs n n 0 (replicate (Z.to_nat n) hdr0) b.

(** The heap of the scenarios: one map of [n] blocks of 16 bytes at
    address 4096. *)
Definition scenario_heap (n : Z) : mm_heap :=
  mk_heap 1 [fresh_map 16 n 4096] 4096 (16 * n) 0 (mk_info 0 (16 * n)).

(** A System heap of 256 bytes at [b]. *)
Definition sys_heap (b : Z) : mm_heap :=
  mk_heap 0 [] b 256 0 (mk_info 0 256).

(** A System-Runtime heap: one map of two blocks of 64 bytes at [b]. *)
Definition sys_runtime_heap (b : Z) : mm_heap :=
  mk_heap 1 [fresh_map 64 2 b] b 128 0 (mk_info 0 128).

Definition zero_store : memory := fun _ => 0.

(** Two cores; the scenario heap is the only Buffer heap. *)
Definition buffer_registry (n : Z) : mm :=
  mk_mm [sys_heap 1024; sys_heap 1280]
        [sys_runtime_heap 2048; sys_runtime_heap 2176]
        [] [scenario_heap n] 0 zero_store.

(** Two cores; the scenario heap is the only Runtime heap. *)
Definition runtime_registry (n : Z) : mm :=
  mk_mm [sys_heap 1024; sys_heap 1280]
        [sys_runtime_heap 2048; sys_runtime_heap 2176]
        [scenario_heap n] [] 0 zero_store.

(** The scenario heap with all four blocks handed out one by one. *)
Definition full_heap : mm_heap :=
  mk_heap 1
    [mk_map 16 4 0 3 [mk_hdr 1 1; mk_hdr 1 1; mk_hdr 1 1; mk_hdr 1 1] 4096]
    4096 64 0 (mk_info 64 0).

Definition full_registry : mm :=
  mk_mm [sys_heap 1024; sys_heap 1280]
        [sys_runtime_heap 2048; sys_runtime_heap 2176]
        [] [full_heap] 0 zero_store.

(** A Runtime heap with capability bit 0 and a Buffer heap with bits 0 and
    1. *)
Definition caps_registry : mm :=
  mk_mm [sys_heap 1024]
        [sys_runtime_heap 2048]
        [mk_heap 1 [fresh_map 16 4 4096] 4096 64 1 (mk_info 0 64)]
        [mk_heap 1 [fresh_map 16 4 8192] 8192 64 3 (mk_info 0 64)]
        0 zero_store.

(** Calls of a client. *)
Inductive call :=
| Malloc (zone caps bytes : Z)
| Balloc (zone caps bytes : Z)
| Rfree (ptr : Z).

Section Calls.
Context `{Platform}.

Definition do_call (cpu : Z) (c : call) (st : mm) : outcome (Z * mm) :=
  match c with
  | Malloc zone caps bytes => _malloc zone caps bytes cpu st
  | Balloc zone caps bytes => Done (_balloc zone caps bytes st)
  | Rfree ptr => st' ← rfree cpu ptr st; Done (0, st')
  end.

(** The pointers returned, call by call (0 for a free), and the registry
    at the end. *)
Fixpoint run_calls (cpu : Z) (cs : list call) (st : mm)
  : outcome (list Z * mm) :=
  match cs with
  | [] => Done ([], st)
  | c :: cs' =>
      '(p, st1) ← do_call cpu c st;
      '(ps, st2) ← run_calls cpu cs' st1;
      Done (p :: ps, st2)
  end.

(** The block maps at the end of a run. *)
Definition final_maps (c : heap_class) (r : outcome (list Z * mm))
  : option (list Z * list block_map * mm_info) :=
  match r with
  | Done (ps, st) =>
      Some (ps, heap_map (heap_at (class_heaps c st) 0),
            heap_info (heap_at (class_heaps c st) 0))
  | Fatal => None
  end.

End Calls.

(** Further concrete data for the instances of the theorems. *)

(** A store with a different byte at neighbouring addresses. *)
Definition sample_store : memory := fun a => a mod 251.

(** The registry a call leaves, [d] when it panicked. *)
Definition final_state (o : outcome (Z * mm)) (d : mm) : mm :=
  match o with
  | Done (_, s) => s
  | Fatal => d
  end.

Definition freed_state (o : outcome mm) (d : mm) : mm :=
  match o with
  | Done s => s
  | Fatal => d
  end.

(** The buffer registry over the sample store, with the first block of
    its heap handed out. *)
Definition one_block_registry : mm :=
  mk_mm [sys_heap 1024; sys_heap 1280]
        [sys_runtime_heap 2048; sys_runtime_heap 2176]
        []
        [mk_heap 1
           [mk_map 16 4 3 1 [mk_hdr 1 1; hdr0; hdr0; hdr0] 4096]
           4096 64 0 (mk_info 16 48)]
        0 sample_store.

Definition final_heap (o : outcome (mm_heap * memory))
  (d : mm_heap * memory) : mm_heap * memory :=
  match o with
  | Done r => r
  | Fatal => d
  end.

(** A Buffer heap of two maps as a platform declares it, the bases not set
    yet: four blocks of 16 bytes and two of 64. *)
Definition declared_heap : mm_heap :=
  mk_heap 2 [fresh_map 16 4 0; fresh_map 64 2 0] 4096 192 0 (mk_info 0 192).

Definition declared_registry : mm :=
  mk_mm [sys_heap 1024; sys_heap 1280]
        [sys_runtime_heap 2048; sys_runtime_heap 2176]
        [] [declared_heap] 0 zero_store.

(** The same heap laid out. *)
Definition two_map_heap : mm_heap :=
  mk_heap 2 [fresh_map 16 4 4096; fresh_map 64 2 4160] 4096 192 0
          (mk_info 0 192).

(** The scenario heap with its first three blocks handed out one by
    one. *)
Definition three_block_heap : mm_heap :=
  mk_heap 1
    [mk_map 16 4 1 3 [mk_hdr 1 1; mk_hdr 1 1; mk_hdr 1 1; hdr0] 4096]
    4096 64 0 (mk_info 48 16).
(** * Properties *)

(** ** Arithmetic and loop lemmas *)

Arguments u32 : simpl never.
Arguments uc : simpl never.

Lemma u32_small (x : Z) : 0 <= x < 2 ^ 32 -> u32 x = x.
Proof. intros Hx. unfold u32. now apply Z.mod_small. Qed.

Lemma u32_range (x : Z) : 0 <= u32 x < 2 ^ 32.
Proof. unfold u32. apply Z.mod_pos_bound. lia. Qed.

Lemma u32_add_sub (x d : Z) : 0 <= x < 2 ^ 32 -> u32 (u32 (x + d) - d) = x.
Proof.
  intros Hx. unfold u32.
  rewrite Zminus_mod_idemp_l.
  replace (x + d - d) with x by lia.
  now apply Z.mod_small.
Qed.

Lemma u32_sub_add (x d : Z) : 0 <= x < 2 ^ 32 -> u32 (u32 (x - d) + d) = x.
Proof.
  intros Hx. unfold u32.
  rewrite Zplus_mod_idemp_l.
  replace (x - d + d) with x by lia.
  now apply Z.mod_small.
Qed.

Section Arith.
Context `{Platform}.

Lemma uc_small (x : Z) : 0 <= x < 2 ^ cnt_bits -> uc x = x.
Proof. intros Hx. unfold uc. now apply Z.mod_small. Qed.

Lemma uc_sub_add (x d : Z) :
  0 <= x < 2 ^ cnt_bits -> uc (uc (x - d) + d) = x.
Proof.
  intros Hx. unfold uc.
  rewrite Zplus_mod_idemp_l.
  replace (x - d + d) with x by lia.
  now apply Z.mod_small.
Qed.

End Arith.

Lemma scan_up_Some (P : Z -> bool) (n : nat) : forall i j,
  scan_up P i n = Some j ->
  i <= j < i + Z.of_nat n /\ P j = true
  /\ forall k, i <= k < j -> P k = false.
Proof.
  induction n as [|n IH]; intros i j; simpl; [discriminate|].
  destruct (P i) eqn:HP.
  - intros [= <-]. repeat split; try lia. trivial.
  - intros Hs. apply IH in Hs as (Hr & Hj & Hlow).
    repeat split; try lia; trivial.
    intros k Hk. destruct (Z.eq_dec k i) as [->|Hne]; trivial.
    apply Hlow. lia.
Qed.

Lemma scan_up_None (P : Z -> bool) (n : nat) : forall i,
  scan_up P i n = None <-> forall k, i <= k < i + Z.of_nat n -> P k = false.
Proof.
  induction n as [|n IH]; intros i; simpl.
  - split; [intros _ k Hk; lia | trivial].
  - destruct (P i) eqn:HP.
    + split; [discriminate|]. intros Hall.
      rewrite Hall in HP by lia. discriminate.
    + rewrite IH. split; intros Hall k Hk.
      * destruct (Z.eq_dec k i) as [->|Hne]; trivial. apply Hall. lia.
      * apply Hall. lia.
Qed.

(** The first index from [i] on that satisfies [P] is where the loop
    breaks. *)
Lemma scan_up_first (P : Z -> bool) (n : nat) (i j : Z) :
  i <= j < i + Z.of_nat n -> P j = true ->
  (forall k, i <= k < j -> P k = false) ->
  scan_up P i n = Some j.
Proof.
  intros Hr Hj Hlow.
  destruct (scan_up P i n) as [j'|] eqn:Hs.
  - apply scan_up_Some in Hs as (Hr' & Hj' & Hlow').
    destruct (Z.lt_trichotomy j j') as [Hlt|[->|Hgt]]; trivial.
    + rewrite Hlow' in Hj by lia. discriminate.
    + rewrite Hlow in Hj' by lia. discriminate.
  - rewrite scan_up_None in Hs. rewrite Hs in Hj by lia. discriminate.
Qed.

Lemma heap_at_lookup (hs : list mm_heap) (i : nat) (h : mm_heap) :
  hs !! i = Some h -> heap_at hs (Z.of_nat i) = h.
Proof. intros Hl. unfold heap_at. now rewrite Nat2Z.id, Hl. Qed.

Lemma map_at_lookup (h : mm_heap) (i : nat) (m : block_map) :
  heap_map h !! i = Some m -> map_at h (Z.of_nat i) = m.
Proof. intros Hl. unfold map_at. now rewrite Nat2Z.id, Hl. Qed.

Lemma set_heap_same (c : heap_class) (i : Z) (st : mm) :
  set_heap c i (heap_at (class_heaps c st) i) st = st.
Proof.
  assert (Hid : forall hs : list mm_heap,
             <[Z.to_nat i := heap_at hs i]> hs = hs).
  { intros hs. unfold heap_at.
    destruct (hs !! Z.to_nat i) as [h|] eqn:Hl; simpl.
    - now apply list_insert_id.
    - apply list_insert_ge. now apply lookup_ge_None. }
  destruct st, c; unfold set_heap; simpl; now rewrite Hid.
Qed.

Lemma set_mem_same (st : mm) : set_mem (mem st) st = st.
Proof. now destruct st. Qed.

(** ** Null safety *)

Section NullSafety.
Context `{Platform}.

(** C9.  Freeing the null pointer returns at once with the registry and
    the store as they were, and a reallocation to zero bytes, in both
    variants, returns null with the registry and the store as they were:
    nothing is allocated, nothing is freed, nothing is written. *)
Theorem null_safety (cpu ptr zone caps : Z) (st : mm) :
  _rfree_unlocked cpu 0 st = Done st
  /\ rfree cpu 0 st = Done st
  /\ _realloc ptr zone caps 0 cpu st = Done (0, st)
  /\ _brealloc ptr zone caps 0 cpu st = Done (0, st).
Proof. repeat split. Qed.

End NullSafety.

(** ** Freeing inside a System heap *)

Section SystemHeapFree.
Context `{Platform}.

(** C5, as amended.  A non-null pointer whose cached address lies inside
    the System heap of the calling core makes free panic: the block free
    path is not entered and the call does not return. *)
Theorem free_in_own_system_heap_is_fatal (cpu ptr : Z) (st : mm) :
  ptr <> 0 ->
  0 <= heap_base (heap_at (system st) cpu) ->
  heap_base (heap_at (system st) cpu) + heap_size (heap_at (system st) cpu)
    < 2 ^ 32 ->
  heap_base (heap_at (system st) cpu) <= cached_address ptr
    < heap_base (heap_at (system st) cpu)
      + heap_size (heap_at (system st) cpu) ->
  _rfree_unlocked cpu ptr st = Fatal /\ rfree cpu ptr st = Fatal.
Proof.
  intros Hnz Hb Hend Hin.
  assert (Hgoal : _rfree_unlocked cpu ptr st = Fatal).
  { unfold _rfree_unlocked, is_null.
    destruct (Z.eqb_spec ptr 0) as [->|_]; [contradiction|].
    fold (cached_address ptr).
    unfold in_heap. rewrite u32_small by lia.
    destruct (Z.leb_spec (heap_base (heap_at (system st) cpu))
                         (cached_address ptr)); [|lia].
    destruct (Z.ltb_spec (cached_address ptr)
                (heap_base (heap_at (system st) cpu)
                 + heap_size (heap_at (system st) cpu))); [|lia].
    reflexivity. }
  split; [exact Hgoal | exact Hgoal].
Qed.

End SystemHeapFree.

(** ** Heap selection by capability *)

Section Selection.
Context `{Platform}.

Lemma caps_match_spec (h : mm_heap) (caps : Z) :
  caps_match h caps = true <-> caps_contain h caps.
Proof. unfold caps_match, caps_contain. apply Z.eqb_eq. Qed.

Lemma caps_match_false (h : mm_heap) (caps : Z) :
  caps_match h caps = false <-> ~ caps_contain h caps.
Proof. unfold caps_match, caps_contain. apply Z.eqb_neq. Qed.

Lemma get_heap_from_caps_Some (hs : list mm_heap) (caps i : Z) :
  get_heap_from_caps hs (Z.of_nat (length hs)) caps = Some i <->
  first_match hs caps i.
Proof.
  unfold get_heap_from_caps, first_match. rewrite Nat2Z.id. split.
  - intros Hs. apply scan_up_Some in Hs as (Hr & Hi & Hlow).
    split; [lia|]. split; [now apply caps_match_spec|].
    intros k Hk. apply caps_match_false, Hlow. lia.
  - intros (Hr & Hi & Hlow). apply scan_up_first.
    + lia.
    + now apply caps_match_spec.
    + intros k Hk. apply caps_match_false, Hlow. lia.
Qed.

Lemma get_heap_from_caps_None (hs : list mm_heap) (caps : Z) :
  get_heap_from_caps hs (Z.of_nat (length hs)) caps = None <->
  no_match hs caps.
Proof.
  unfold get_heap_from_caps, no_match. rewrite Nat2Z.id, scan_up_None.
  split; intros Hall k Hk.
  - apply caps_match_false, Hall. lia.
  - apply caps_match_false, Hall. lia.
Qed.

(** C7.  The heap [get_heap_from_caps] returns has a mask that contains the
    requested one and is the first such heap of the array; it returns no
    heap exactly when the array has none.  [rmalloc_runtime] allocates from
    the first matching heap of the Runtime array, from the first matching
    heap of the Buffer array when the Runtime array has none, and returns
    null with the registry untouched when neither array has one. *)
Theorem heap_selection_by_caps (zone caps bytes : Z) (st : mm) :
  (forall hs i,
      get_heap_from_caps hs (Z.of_nat (length hs)) caps = Some i ->
      first_match hs caps i)
  /\ (forall hs,
         get_heap_from_caps hs (Z.of_nat (length hs)) caps = None <->
         no_match hs caps)
  /\ (forall i,
         first_match (runtime st) caps i ->
         rmalloc_runtime zone caps bytes st
         = (fst (get_ptr_from_heap (heap_at (runtime st) i) zone caps bytes),
            set_heap Runtime i
              (snd (get_ptr_from_heap (heap_at (runtime st) i) zone caps
                                      bytes)) st))
  /\ (forall i,
         no_match (runtime st) caps ->
         first_match (buffer st) caps i ->
         rmalloc_runtime zone caps bytes st
         = (fst (get_ptr_from_heap (heap_at (buffer st) i) zone caps bytes),
            set_heap Buffer i
              (snd (get_ptr_from_heap (heap_at (buffer st) i) zone caps
                                      bytes)) st))
  /\ (no_match (runtime st) caps -> no_match (buffer st) caps ->
      rmalloc_runtime zone caps bytes st = (0, st)).
Proof.
  split; [intros hs i; apply get_heap_from_caps_Some|].
  split; [intros hs; apply get_heap_from_caps_None|].
  split; [|split].
  - intros i Hi. apply get_heap_from_caps_Some in Hi.
    unfold rmalloc_runtime. rewrite Hi.
    now destruct (get_ptr_from_heap _ _ _ _).
  - intros i Hno Hi. apply get_heap_from_caps_None in Hno.
    apply get_heap_from_caps_Some in Hi.
    unfold rmalloc_runtime. rewrite Hno, Hi.
    now destruct (get_ptr_from_heap _ _ _ _).
  - intros Hr Hb. apply get_heap_from_caps_None in Hr, Hb.
    unfold rmalloc_runtime. now rewrite Hr, Hb.
Qed.

End Selection.

(** ** Freeing a header that is already free *)

Lemma set_info_same (h : mm_heap) : set_info (heap_info h) h = h.
Proof. now destruct h. Qed.

Lemma set_first_free_same (m : block_map) :
  set_first_free (first_free m) m = m.
Proof. now destruct m. Qed.

Lemma mem_set_heap (c : heap_class) (i : Z) (h : mm_heap) (st : mm) :
  mem (set_heap c i h st) = mem st.
Proof. now destruct c. Qed.

Section FreeTwice.
Context `{Platform}.

Lemma find_map_of_ptr (h : mm_heap) (ptr i : Z) :
  map_of_ptr h ptr i ->
  scan_up (fun i => ptr <? u32 (map_base (map_at h i)
                                + block_size (map_at h i)
                                  * map_count (map_at h i)))
          0 (Z.to_nat (heap_blocks h)) = Some i.
Proof.
  intros (Hr & Hi & Hlow). apply scan_up_first.
  - lia.
  - apply Z.ltb_lt. exact Hi.
  - intros k Hk. apply Z.ltb_ge. apply Hlow. lia.
Qed.

(** C10.  When the pointer resolves to a heap and a map, falls on a block
    boundary and the header there records size 0, [free_block] returns
    normally and the registry it leaves differs from the one it found in
    at most the [first_free] of that map, which becomes the smaller of the
    block index and its old value: [free_count], the header array, the
    byte counters of the heap and the store are as before. *)
Theorem aligned_double_free_is_benign
  (cpu ptr : Z) (st : mm) (c : heap_class) (k i : Z) :
  get_heap_from_ptr cpu ptr st = Some (c, k) ->
  map_of_ptr (heap_at (class_heaps c st) k) ptr i ->
  u32 (map_base (map_at (heap_at (class_heaps c st) k) i)
       + block_size (map_at (heap_at (class_heaps c st) k) i)
         * (u32 (ptr - map_base (map_at (heap_at (class_heaps c st) k) i))
            / block_size (map_at (heap_at (class_heaps c st) k) i)))
  = ptr ->
  hdr_size
    (hdr_at (block (map_at (heap_at (class_heaps c st) k) i))
       (u32 (ptr - map_base (map_at (heap_at (class_heaps c st) k) i))
        / block_size (map_at (heap_at (class_heaps c st) k) i))) = 0 ->
  let h := heap_at (class_heaps c st) k in
  let m := map_at h i in
  let blk := u32 (ptr - map_base m) / block_size m in
  let m' := set_first_free (Z.min blk (first_free m)) m in
  free_block cpu ptr st = Done (set_heap c k (set_map i m' h) st)
  /\ free_count m' = free_count m
  /\ block m' = block m
  /\ heap_info (set_map i m' h) = heap_info h
  /\ mem (set_heap c k (set_map i m' h) st) = mem st.
Proof.
  intros Hres Hmap Halign Hsize h m blk m'.
  split; [|repeat split; apply mem_set_heap].
  unfold free_block. rewrite Hres. fold h.
  unfold free_block_at. rewrite (find_map_of_ptr h ptr i Hmap).
  fold m. cbv zeta. fold blk.
  fold h m blk in Halign, Hsize.
  rewrite Halign, Z.eqb_refl, Hsize. simpl.
  assert (Hm : (if blk <? first_free m then set_first_free blk m else m)
               = m').
  { unfold m'. destruct (Z.ltb_spec blk (first_free m)).
    - now rewrite Z.min_l by lia.
    - rewrite Z.min_r by lia. symmetry. apply set_first_free_same. }
  rewrite Hm.
  change (Z.of_nat (Z.to_nat 0)) with 0. rewrite Z.mul_0_r.
  change (Z.to_nat 0) with 0%nat. simpl memset.
  assert (Hmu : (if CONFIG_DEBUG_BLOCK_FREE then mem st else mem st)
                = mem (set_heap c k (set_map i m' h) st)).
  { rewrite mem_set_heap. now destruct CONFIG_DEBUG_BLOCK_FREE. }
  rewrite Hmu. now rewrite set_mem_same.
Qed.

End FreeTwice.

(** ** Allocation followed by free *)

Lemma map_at_set_map_eq (h : mm_heap) (L : nat) (m : block_map) :
  (L < length (heap_map h))%nat ->
  map_at (set_map (Z.of_nat L) m h) (Z.of_nat L) = m.
Proof.
  intros HL. unfold map_at, set_map. simpl.
  rewrite Nat2Z.id. now rewrite list_lookup_insert_eq.
Qed.

Lemma heap_map_set_map (h : mm_heap) (L : nat) (m : block_map) :
  heap_map (set_map (Z.of_nat L) m h) = <[L := m]> (heap_map h).
Proof. unfold set_map. simpl. now rewrite Nat2Z.id. Qed.

Lemma hdr_at_insert_eq (blk : list block_hdr) (i : Z) (x : block_hdr) :
  0 <= i < Z.of_nat (length blk) ->
  hdr_at (<[Z.to_nat i := x]> blk) i = x.
Proof.
  intros Hi. unfold hdr_at.
  rewrite list_lookup_insert_eq by lia. reflexivity.
Qed.

Lemma hdr_at_insert_ne (blk : list block_hdr) (i j : Z) (x : block_hdr) :
  0 <= i -> 0 <= j -> i <> j ->
  hdr_at (<[Z.to_nat i := x]> blk) j = hdr_at blk j.
Proof.
  intros Hi Hj Hne. unfold hdr_at.
  rewrite list_lookup_insert_ne by lia. reflexivity.
Qed.

Lemma hdr_at_alter_eq (f : block_hdr -> block_hdr) (blk : list block_hdr)
  (i : Z) :
  0 <= i < Z.of_nat (length blk) ->
  hdr_at (alter f (Z.to_nat i) blk) i = f (hdr_at blk i).
Proof.
  intros Hi. unfold hdr_at.
  rewrite list_lookup_alter_eq.
  destruct (lookup_lt_is_Some_2 blk (Z.to_nat i)) as [x Hx]; [lia|].
  now rewrite Hx.
Qed.

Lemma mark_used_length (n : nat) : forall blk i,
  length (mark_used blk i n) = length blk.
Proof.
  induction n as [|n IH]; intros blk i; simpl; trivial.
  now rewrite IH, length_alter.
Qed.

Lemma mark_used_size (n : nat) : forall blk i j,
  hdr_size (hdr_at (mark_used blk i n) j) = hdr_size (hdr_at blk j).
Proof.
  induction n as [|n IH]; intros blk i j; simpl; trivial.
  rewrite IH. unfold hdr_at.
  destruct (decide (Z.to_nat i = Z.to_nat j)) as [Heq|Hne].
  - rewrite <- Heq, list_lookup_alter_eq.
    now destruct (blk !! Z.to_nat i).
  - now rewrite list_lookup_alter_ne.
Qed.

Lemma count_unused_le (blk : list block_hdr) (n : nat) : forall i,
  0 <= count_unused blk i n <= Z.of_nat n.
Proof.
  induction n as [|n IH]; intros i; simpl count_unused; [lia|].
  specialize (IH (i + 1)).
  destruct (hdr_used (hdr_at blk i) =? 0); lia.
Qed.

Section RoundTrip.
Context `{Platform}.

Lemma free_loop_shape (n : nat) : forall i m inf,
  block_size (fst (free_loop n i m inf)) = block_size m
  /\ map_count (fst (free_loop n i m inf)) = map_count m
  /\ map_base (fst (free_loop n i m inf)) = map_base m
  /\ first_free (fst (free_loop n i m inf)) = first_free m
  /\ length (block (fst (free_loop n i m inf))) = length (block m).
Proof.
  induction n as [|n IH]; intros i m inf; simpl; [tauto|].
  destruct (IH (i + 1)
              (mk_map (block_size m) (map_count m) (uc (free_count m + 1))
                 (first_free m) (<[Z.to_nat i := mk_hdr 0 0]> (block m))
                 (map_base m))
              (mk_info (u32 (info_used inf - block_size m))
                 (u32 (info_free inf + block_size m))))
    as (H1 & H2 & H3 & H4 & H5).
  simpl in *. rewrite H1, H2, H3, H4, H5, length_insert. tauto.
Qed.

(** The counters after the clearing loop, for counters that start inside
    their fields. *)
Lemma free_loop_counters (n : nat) : forall i m inf,
  uc (free_count m) = free_count m ->
  u32 (info_used inf) = info_used inf ->
  u32 (info_free inf) = info_free inf ->
  free_count (fst (free_loop n i m inf)) = uc (free_count m + Z.of_nat n)
  /\ info_used (snd (free_loop n i m inf))
     = u32 (info_used inf - Z.of_nat n * block_size m)
  /\ info_free (snd (free_loop n i m inf))
     = u32 (info_free inf + Z.of_nat n * block_size m).
Proof.
  induction n as [|n IH]; intros i m inf Hfc Hu Hf.
  - simpl. rewrite Z.add_0_r, Z.sub_0_r, Z.add_0_r. auto.
  - simpl free_loop.
    edestruct (IH (i + 1)
              (mk_map (block_size m) (map_count m) (uc (free_count m + 1))
                 (first_free m) (<[Z.to_nat i := mk_hdr 0 0]> (block m))
                 (map_base m))
              (mk_info (u32 (info_used inf - block_size m))
                 (u32 (info_free inf + block_size m))))
      as (H1 & H2 & H3).
    + simpl. unfold uc. apply Zmod_mod.
    + simpl. unfold u32. apply Zmod_mod.
    + simpl. unfold u32. apply Zmod_mod.
    + simpl in H1, H2, H3. rewrite H1, H2, H3.
      unfold uc, u32.
      rewrite Zplus_mod_idemp_l, Zminus_mod_idemp_l, Zplus_mod_idemp_l.
      repeat split; f_equal; lia.
Qed.

(** The headers the clearing loop passes over are free afterwards. *)
Lemma free_loop_clears (n : nat) : forall i m inf j,
  0 <= i -> i + Z.of_nat n <= Z.of_nat (length (block m)) ->
  i <= j < i + Z.of_nat n ->
  hdr_at (block (fst (free_loop n i m inf))) j = mk_hdr 0 0.
Proof.
  induction n as [|n IH]; intros i m inf j Hi Hlen Hj; [lia|].
  simpl free_loop.
  destruct (Z.eq_dec j i) as [->|Hne].
  - clear IH. 
    assert (Hkeep : forall k m0 inf0, i < k -> 
              hdr_at (block (fst (free_loop n k m0 inf0))) i
              = hdr_at (block m0) i).
    { clear - Hi. induction n as [|n IH]; intros k m0 inf0 Hk; trivial.
      simpl free_loop. rewrite IH by lia. simpl.
      apply hdr_at_insert_ne; lia. }
    rewrite Hkeep by lia. simpl. apply hdr_at_insert_eq. lia.
  - apply IH; simpl; try rewrite length_insert; lia.
Qed.

Lemma map_ok_end_nonneg (m : block_map) : map_ok m -> 0 <= map_end m.
Proof.
  intros (Hbs & Hb & _ & Hc & _). unfold map_end.
  assert (0 <= map_count m) by lia. nia.
Qed.

(** [free_block_at] on the address of block [idx] of map [L]: the map
    search stops at [L], the index recovered is [idx], the alignment test
    passes, and the clearing loop runs over as many headers as the header
    at [idx] records. *)
Lemma free_block_at_head (h : mm_heap) (L : nat) (m : block_map)
  (mu : memory) (idx : Z) :
  heap_blocks h = Z.of_nat (length (heap_map h)) ->
  heap_map h !! L = Some m ->
  0 < block_size m -> 0 <= map_base m -> map_end m < 2 ^ 32 ->
  (forall j mj, (j < L)%nat -> heap_map h !! j = Some mj ->
                0 <= map_end mj <= map_base m) ->
  0 <= idx < map_count m ->
  exists mu',
    free_block_at (u32 (map_base m + idx * block_size m)) h mu
    = Done (set_info
              (snd (free_loop (Z.to_nat (hdr_size (hdr_at (block m) idx)))
                              idx m (heap_info h)))
              (set_map (Z.of_nat L)
                 (if idx <? first_free m
                  then set_first_free idx
                         (fst (free_loop
                                 (Z.to_nat (hdr_size (hdr_at (block m) idx)))
                                 idx m (heap_info h)))
                  else fst (free_loop
                              (Z.to_nat (hdr_size (hdr_at (block m) idx)))
                              idx m (heap_info h)))
                 h),
            mu').
Proof.
  intros Hblocks Hlk Hbs Hbase Hend Hbelow Hidx.
  unfold map_end in Hend.
  assert (Hptr : u32 (map_base m + idx * block_size m)
                 = map_base m + idx * block_size m)
    by (apply u32_small; nia).
  assert (HL : (L < length (heap_map h))%nat)
    by (apply lookup_lt_is_Some; eauto).
  assert (Hspan : 0 <= block_size m * map_count m) by nia.
  assert (Hmap : map_of_ptr h (u32 (map_base m + idx * block_size m))
                            (Z.of_nat L)).
  { unfold map_of_ptr. rewrite (map_at_lookup h L m Hlk), Hptr.
    split; [lia|]. split.
    - unfold map_end. rewrite u32_small by nia. nia.
    - intros k Hk.
      destruct (lookup_lt_is_Some_2 (heap_map h) (Z.to_nat k)) as [mk Hmk];
        [lia|].
      replace k with (Z.of_nat (Z.to_nat k)) by lia.
      rewrite (map_at_lookup h _ mk Hmk).
      destruct (Hbelow (Z.to_nat k) mk) as [Hlo Hhi]; [lia|trivial|].
      rewrite u32_small by lia. nia. }
  unfold free_block_at. rewrite (find_map_of_ptr h _ _ Hmap).
  rewrite (map_at_lookup h L m Hlk). cbv zeta.
  rewrite Hptr.
  replace (map_base m + idx * block_size m - map_base m)
    with (idx * block_size m) by lia.
  rewrite (u32_small (idx * block_size m)) by nia.
  rewrite Z.div_mul by lia.
  replace (block_size m * idx) with (idx * block_size m) by lia.
  rewrite Hptr, Z.eqb_refl. cbn [negb].
  destruct (free_loop (Z.to_nat (hdr_size (hdr_at (block m) idx))) idx m
              (heap_info h)) as [m1 inf] eqn:Hloop.
  pose proof (free_loop_shape (Z.to_nat (hdr_size (hdr_at (block m) idx)))
                idx m (heap_info h)) as (_ & _ & _ & Hff & _).
  rewrite Hloop in Hff. cbn [fst snd] in *. rewrite Hff.
  eexists. reflexivity.
Qed.

Lemma map_at_set_info (inf : mm_info) (h : mm_heap) (i : Z) :
  map_at (set_info inf h) i = map_at h i.
Proof. reflexivity. Qed.

Lemma free_count_hint (b : bool) (i : Z) (m : block_map) :
  free_count (if b then set_first_free i m else m) = free_count m.
Proof. now destruct b. Qed.

Lemma block_hint (b : bool) (i : Z) (m : block_map) :
  block (if b then set_first_free i m else m) = block m.
Proof. now destruct b. Qed.

(** What the round trip needs of the heap after the allocation: map [L]
    replaced by a map with the same geometry. *)
Lemma free_after_alloc (h : mm_heap) (L : nat) (m m' : block_map)
  (inf : mm_info) (mu : memory) :
  heap_ok h -> heap_map h !! L = Some m ->
  block_size m' = block_size m -> map_count m' = map_count m ->
  map_base m' = map_base m ->
  first_free m < map_count m ->
  exists mu',
    free_block_at (u32 (map_base m + first_free m * block_size m))
                  (set_info inf (set_map (Z.of_nat L) m' h)) mu
    = Done (set_info
              (snd (free_loop
                      (Z.to_nat (hdr_size (hdr_at (block m') (first_free m))))
                      (first_free m) m' inf))
              (set_map (Z.of_nat L)
                 (if first_free m <? first_free m'
                  then set_first_free (first_free m)
                         (fst (free_loop
                                 (Z.to_nat (hdr_size (hdr_at (block m')
                                                        (first_free m))))
                                 (first_free m) m' inf))
                  else fst (free_loop
                              (Z.to_nat (hdr_size (hdr_at (block m')
                                                     (first_free m))))
                              (first_free m) m' inf))
                 (set_info inf (set_map (Z.of_nat L) m' h))),
            mu').
Proof.
  intros (Hblocks & Hmaps & Hlay & _) Hlk Hbs Hcnt Hbase Hff.
  destruct (Hmaps L m Hlk) as (Hbs0 & Hb0 & Hend & Hlen & _ & Hff0 & _).
  assert (HL : (L < length (heap_map h))%nat)
    by (apply lookup_lt_is_Some; eauto).
  rewrite <- Hbase, <- Hbs.
  apply (free_block_at_head (set_info inf (set_map (Z.of_nat L) m' h)) L m').
  - simpl. rewrite length_insert. exact Hblocks.
  - simpl. rewrite Nat2Z.id. now apply list_lookup_insert_eq.
  - lia.
  - lia.
  - unfold map_end in *. rewrite Hbase, Hbs, Hcnt. exact Hend.
  - intros j mj Hj Hlj. simpl in Hlj. rewrite Nat2Z.id in Hlj.
    rewrite list_lookup_insert_ne in Hlj by lia.
    split.
    + apply map_ok_end_nonneg. eapply Hmaps. exact Hlj.
    + rewrite Hbase. eapply Hlay; eauto.
  - lia.
Qed.

Lemma span_blocks_pos (bytes bs : Z) :
  0 < bytes -> 0 < bs -> 1 <= span_blocks bytes bs.
Proof.
  intros Hb Hbs. unfold span_blocks.
  pose proof (Z.div_pos bytes bs ltac:(lia) Hbs) as Hq.
  destruct (Z.eqb_spec (bytes mod bs) 0) as [Hz|Hnz]; [|lia].
  pose proof (Z.div_mod bytes bs ltac:(lia)) as Hdm.
  rewrite Hz in Hdm. nia.
Qed.

Lemma heap_info_restored (h : mm_heap) (d : Z) :
  0 <= info_used (heap_info h) < 2 ^ 32 ->
  0 <= info_free (heap_info h) < 2 ^ 32 ->
  mk_info (u32 (u32 (info_used (heap_info h) + d) - d))
          (u32 (u32 (info_free (heap_info h) - d) + d))
  = heap_info h.
Proof.
  intros Hu Hf. rewrite u32_add_sub, u32_sub_add by trivial.
  now destruct (heap_info h).
Qed.

(** X27.  On a well-formed heap, for a map whose hint is inside the map,
    freeing the pointer a single-block allocation returned brings
    [free_count] of the map and the [used] and [free] byte counters of the
    heap back to their values before the allocation; and so does freeing
    the pointer of a successful span allocation, which moreover leaves
    every header of the span free, the length of the span being read from
    the head header alone. *)
Theorem alloc_free_round_trip (h : mm_heap) (L : nat) (m : block_map)
  (mu : memory) :
  heap_ok h ->
  heap_map h !! L = Some m ->
  (first_free m < map_count m ->
   exists h2 mu',
     free_block_at (fst (alloc_block h (Z.of_nat L)))
                   (snd (alloc_block h (Z.of_nat L))) mu = Done (h2, mu')
     /\ free_count (map_at h2 (Z.of_nat L)) = free_count m
     /\ heap_info h2 = heap_info h)
  /\ (forall bytes,
        0 < bytes ->
        span_blocks bytes (block_size m) <= map_count m ->
        span_blocks bytes (block_size m)
        <= count_unused (block m) (first_free m)
                        (Z.to_nat (map_count m - first_free m)) ->
        exists h2 mu',
          free_block_at (fst (alloc_cont_blocks h (Z.of_nat L) bytes))
                        (snd (alloc_cont_blocks h (Z.of_nat L) bytes)) mu
          = Done (h2, mu')
          /\ fst (alloc_cont_blocks h (Z.of_nat L) bytes)
             = map_base m + first_free m * block_size m
          /\ free_count (map_at h2 (Z.of_nat L)) = free_count m
          /\ heap_info h2 = heap_info h
          /\ forall j,
               first_free m <= j
               < first_free m + span_blocks bytes (block_size m) ->
               hdr_at (block (map_at h2 (Z.of_nat L))) j = mk_hdr 0 0).
Proof.
  intros Hok Hlk.
  pose proof Hok as (Hblocks & Hmaps & Hlay & Hu & Hf).
  pose proof (Hmaps L m Hlk) as (Hbs & Hb & Hend & Hlen & Hcb & Hff0 & Hfc).
  assert (HL : (L < length (heap_map h))%nat)
    by (apply lookup_lt_is_Some; eauto).
  assert (HL' : forall inf m', (L < length (heap_map
                   (set_info inf (set_map (Z.of_nat L) m' h))))%nat).
  { intros inf m'. simpl. now rewrite length_insert. }
  split.
  - (* single block *)
    intros Hff. unfold alloc_block. rewrite (map_at_lookup h L m Hlk).
    cbv zeta. cbn [fst snd].
    match goal with
    | |- context [set_info ?inf (set_map _ ?m' h)] =>
        destruct (free_after_alloc h L m m' inf mu Hok Hlk eq_refl eq_refl
                    eq_refl Hff) as [mu' Heq]
    end.
    cbn [block] in Heq.
    rewrite hdr_at_insert_eq in Heq by lia.
    change (Z.to_nat (hdr_size (mk_hdr 1 1))) with 1%nat in Heq.
    cbn [free_loop fst snd block_size free_count map_count first_free
         block map_base info_used info_free] in Heq.
    eexists. exists mu'. split; [exact Heq|]. split.
    + rewrite map_at_set_info, map_at_set_map_eq by apply HL'.
      rewrite free_count_hint. cbn [free_count].
      apply uc_sub_add. exact Hfc.
    + cbn [heap_info set_info]. now apply heap_info_restored.
  - (* contiguous span *)
    intros bytes Hbytes Hcnt Hrem.
    pose proof (span_blocks_pos bytes (block_size m) Hbytes Hbs) as Hpos.
    pose proof (count_unused_le (block m)
                  (Z.to_nat (map_count m - first_free m)) (first_free m))
      as Hle.
    assert (Hff : first_free m < map_count m) by lia.
    assert (Hfit : first_free m + span_blocks bytes (block_size m)
                   <= map_count m) by lia.
    unfold alloc_cont_blocks. rewrite (map_at_lookup h L m Hlk). cbv zeta.
    destruct (Z.ltb_spec (map_count m) (span_blocks bytes (block_size m)));
      [lia|].
    destruct (Z.ltb_spec
                (count_unused (block m) (first_free m)
                   (Z.to_nat (map_count m - first_free m)))
                (span_blocks bytes (block_size m))); [lia|].
    cbn [orb fst snd].
    rewrite (uc_small (span_blocks bytes (block_size m))) by lia.
    match goal with
    | |- context [set_info ?inf (set_map _ ?m' h)] =>
        destruct (free_after_alloc h L m m' inf mu Hok Hlk eq_refl eq_refl
                    eq_refl Hff) as [mu' Heq];
        pose proof (free_loop_counters
                      (Z.to_nat (span_blocks bytes (block_size m)))
                      (first_free m) m' inf) as Hcounters;
        pose proof (fun j => free_loop_clears
                      (Z.to_nat (span_blocks bytes (block_size m)))
                      (first_free m) m' inf j) as Hclears
    end.
    cbn [block] in Heq.
    rewrite mark_used_size, hdr_at_alter_eq in Heq by lia.
    cbn [set_hdr_size hdr_size] in Heq.
    cbn [free_count info_used info_free block_size block] in Hcounters.
    destruct Hcounters as (Hc1 & Hc2 & Hc3);
      [apply Zmod_mod | apply Zmod_mod | apply Zmod_mod |].
    rewrite Z2Nat.id in Hc1, Hc2, Hc3 by lia.
    cbn [block] in Hclears.
    rewrite mark_used_length, length_alter, Z2Nat.id in Hclears by lia.
    eexists. exists mu'. split; [exact Heq|]. split; [|split; [|split]].
    + unfold map_end in Hend. apply u32_small. nia.
    + rewrite map_at_set_info, map_at_set_map_eq by apply HL'.
      rewrite free_count_hint, Hc1. apply uc_sub_add. exact Hfc.
    + cbn [heap_info set_info].
      transitivity
        (mk_info
           (u32 (u32 (info_used (heap_info h)
                      + span_blocks bytes (block_size m) * block_size m)
                 - span_blocks bytes (block_size m) * block_size m))
           (u32 (u32 (info_free (heap_info h)
                      - span_blocks bytes (block_size m) * block_size m)
                 + span_blocks bytes (block_size m) * block_size m)));
        [|now apply heap_info_restored].
      rewrite <- Hc2, <- Hc3.
      now destruct (snd (free_loop _ _ _ _)).
    + intros j Hj.
      rewrite map_at_set_info, map_at_set_map_eq by apply HL'.
      rewrite block_hint. apply Hclears; lia.
Qed.

End RoundTrip.

(** ** A failed allocation changes nothing *)

Section FailedAllocation.
Context `{Platform}.

Lemma map_at_cases (h : mm_heap) (i : Z) :
  map_at h i ∈ heap_map h \/ map_at h i = map0.
Proof.
  unfold map_at. destruct (heap_map h !! Z.to_nat i) as [m|] eqn:Hl.
  - left. simpl. eapply list_elem_of_lookup_2. exact Hl.
  - now right.
Qed.

Lemma heap_at_cases (hs : list mm_heap) (i : Z) :
  heap_at hs i ∈ hs \/ heap_at hs i = heap0.
Proof.
  unfold heap_at. destruct (hs !! Z.to_nat i) as [m|] eqn:Hl.
  - left. simpl. eapply list_elem_of_lookup_2. exact Hl.
  - now right.
Qed.

Lemma heap0_slots_nonnull : heap_slots_nonnull heap0.
Proof. intros m Hm. simpl in Hm. now apply elem_of_nil in Hm. Qed.

Lemma heap_at_slots_nonnull (c : heap_class) (st : mm) (i : Z) :
  c <> System -> slots_nonnull st ->
  heap_slots_nonnull (heap_at (class_heaps c st) i).
Proof.
  intros Hc Hst. destruct (heap_at_cases (class_heaps c st) i) as [Hin | ->].
  - now apply (Hst c).
  - apply heap0_slots_nonnull.
Qed.

Lemma alloc_block_ptr (h : mm_heap) (i : Z) :
  fst (alloc_block h i) = next_slot (map_at h i).
Proof. reflexivity. Qed.

(** The block a single-block search settles on is not at the null
    address. *)
Lemma single_block_choice (h : mm_heap) (bytes i : Z) :
  heap_slots_nonnull h ->
  scan_up (fun i => negb (block_size (map_at h i) <? bytes)
                    && negb (free_count (map_at h i) =? 0))
          0 (Z.to_nat (heap_blocks h)) = Some i ->
  fst (alloc_block h i) <> 0.
Proof.
  intros Hh Hs. rewrite alloc_block_ptr.
  apply scan_up_Some in Hs as (_ & Hi & _).
  apply andb_prop in Hi as [_ Hfc].
  destruct (map_at_cases h i) as [Hin|Hz].
  - now apply Hh.
  - rewrite Hz in Hfc. discriminate.
Qed.

Lemma alloc_cont_blocks_cases (h : mm_heap) (i bytes : Z) :
  heap_slots_nonnull h ->
  block_size (map_at h i) < bytes ->
  alloc_cont_blocks h i bytes = (0, h)
  \/ fst (alloc_cont_blocks h i bytes) <> 0.
Proof.
  intros Hh Hbs. unfold alloc_cont_blocks.
  destruct (map_at_cases h i) as [Hin|Hz].
  - destruct (_ || _); [now left|]. right. cbn [fst].
    now apply Hh.
  - left. rewrite Hz in *. change (block_size map0) with 0 in *.
    change (map_count map0) with 0.
    unfold span_blocks. rewrite Z.mod_0_r, Z.div_0_r.
    destruct (Z.eqb_spec bytes 0); [lia|]. reflexivity.
Qed.

Lemma cont_scan_cases (bytes : Z) (n : nat) : forall h,
  heap_slots_nonnull h ->
  cont_scan n h bytes = (0, h) \/ fst (cont_scan n h bytes) <> 0.
Proof.
  induction n as [|n IH]; intros h Hh; simpl; [now left|].
  destruct (negb (heap_size h <? bytes)); cbn [andb]; [|now apply IH].
  destruct (Z.ltb_spec (block_size (map_at h (Z.of_nat n))) bytes);
    [|now apply IH].
  destruct (alloc_cont_blocks_cases h (Z.of_nat n) bytes Hh) as [->|Hnz];
    trivial.
  - cbn [is_null]. change (is_null 0) with true. cbv iota. now apply IH.
  - destruct (alloc_cont_blocks h (Z.of_nat n) bytes) as [p h'].
    cbn [fst] in Hnz. unfold is_null.
    destruct (Z.eqb_spec p 0); [contradiction|]. now right.
Qed.

Lemma alias_keeps_nonnull (zone p : Z) :
  alias_nonnull -> p <> 0 ->
  (if negb (is_null p) && uncached_zone zone then cache_to_uncache p else p)
  <> 0.
Proof.
  intros Ha Hp. destruct (negb (is_null p) && uncached_zone zone); auto.
Qed.

Lemma get_ptr_from_heap_cases (h : mm_heap) (zone caps bytes : Z) :
  alias_nonnull -> heap_slots_nonnull h ->
  get_ptr_from_heap h zone caps bytes = (0, h)
  \/ fst (get_ptr_from_heap h zone caps bytes) <> 0.
Proof.
  intros Ha Hh. unfold get_ptr_from_heap.
  destruct (scan_up _ 0 (Z.to_nat (heap_blocks h))) as [i|] eqn:Hs;
    [|now left].
  right. apply (single_block_choice h bytes i Hh) in Hs.
  destruct (alloc_block h i) as [p h']. cbn [fst] in *.
  now apply alias_keeps_nonnull.
Qed.

Lemma alloc_heap_buffer_cases (h : mm_heap) (zone caps bytes : Z)
  (mu : memory) :
  alias_nonnull -> heap_slots_nonnull h ->
  alloc_heap_buffer h zone caps bytes mu = (0, h, mu)
  \/ fst (fst (alloc_heap_buffer h zone caps bytes mu)) <> 0.
Proof.
  intros Ha Hh. unfold alloc_heap_buffer.
  destruct (scan_up _ 0 (Z.to_nat (heap_blocks h))) as [i|] eqn:Hs.
  - right. apply (single_block_choice h bytes i Hh) in Hs.
    destruct (alloc_block h i) as [p h']. cbn [fst] in Hs.
    unfold is_null at 1. destruct (Z.eqb_spec p 0); [contradiction|].
    cbn [fst]. now apply alias_keeps_nonnull.
  - change (is_null 0) with true. cbv iota.
    destruct (cont_scan_cases bytes (Z.to_nat (heap_blocks h)) h Hh)
      as [->|Hnz].
    + left. change (is_null 0) with true. cbn [negb andb].
      now rewrite andb_false_r.
    + right. destruct (cont_scan _ h bytes) as [p h']. cbn [fst] in *.
      now apply alias_keeps_nonnull.
Qed.

Lemma balloc_loop_cases (zone caps bytes : Z) (fuel : nat) : forall i st,
  alias_nonnull -> slots_nonnull st ->
  balloc_loop fuel i zone caps bytes st = (0, st)
  \/ fst (balloc_loop fuel i zone caps bytes st) <> 0.
Proof.
  induction fuel as [|fuel IH]; intros i st Ha Hst; cbn [balloc_loop];
    [now left|]. cbv zeta.
  destruct (i <? Z.of_nat (length (buffer st))); [|now left].
  destruct (get_heap_from_caps _ _ caps) as [j|]; [|now left].
  pose proof (heap_at_slots_nonnull Buffer st (i + j) ltac:(discriminate)
                Hst) as Hh.
  cbn [class_heaps] in Hh.
  destruct (alloc_heap_buffer_cases (heap_at (buffer st) (i + j)) zone caps
              bytes (mem st) Ha Hh) as [->|Hnz].
  - change (is_null 0) with true. cbv iota.
    pose proof (set_heap_same Buffer (i + j) st) as Hsame.
    cbn [class_heaps] in Hsame. rewrite Hsame, set_mem_same.
    now apply IH.
  - destruct (alloc_heap_buffer _ zone caps bytes (mem st))
      as [[p h'] mu]. cbn [fst] in Hnz.
    unfold is_null. destruct (Z.eqb_spec p 0); [contradiction|]. now right.
Qed.

Lemma rmalloc_runtime_cases (zone caps bytes : Z) (st : mm) :
  alias_nonnull -> slots_nonnull st ->
  rmalloc_runtime zone caps bytes st = (0, st)
  \/ fst (rmalloc_runtime zone caps bytes st) <> 0.
Proof.
  intros Ha Hst. unfold rmalloc_runtime.
  destruct (get_heap_from_caps (runtime st) _ caps) as [i|].
  - pose proof (heap_at_slots_nonnull Runtime st i ltac:(discriminate) Hst)
      as Hh. cbn [class_heaps] in Hh.
    destruct (get_ptr_from_heap_cases (heap_at (runtime st) i) zone caps
                bytes Ha Hh) as [->|Hnz].
    + left. pose proof (set_heap_same Runtime i st) as Hsame.
      cbn [class_heaps] in Hsame. now rewrite Hsame.
    + right. now destruct (get_ptr_from_heap _ zone caps bytes).
  - destruct (get_heap_from_caps (buffer st) _ caps) as [i|]; [|now left].
    pose proof (heap_at_slots_nonnull Buffer st i ltac:(discriminate) Hst)
      as Hh. cbn [class_heaps] in Hh.
    destruct (get_ptr_from_heap_cases (heap_at (buffer st) i) zone caps
                bytes Ha Hh) as [->|Hnz].
    + left. pose proof (set_heap_same Buffer i st) as Hsame.
      cbn [class_heaps] in Hsame. now rewrite Hsame.
    + right. now destruct (get_ptr_from_heap _ zone caps bytes).
Qed.

Lemma rmalloc_sys_runtime_cases (zone caps core bytes : Z) (st : mm) :
  alias_nonnull -> slots_nonnull st ->
  rmalloc_sys_runtime zone caps core bytes st = Fatal
  \/ rmalloc_sys_runtime zone caps core bytes st = Done (0, st)
  \/ exists p st', rmalloc_sys_runtime zone caps core bytes st
                   = Done (p, st') /\ p <> 0.
Proof.
  intros Ha Hst. unfold rmalloc_sys_runtime.
  destruct (negb _); [now left|]. right.
  pose proof (heap_at_slots_nonnull SystemRuntime st core
                ltac:(discriminate) Hst) as Hh.
  cbn [class_heaps] in Hh.
  destruct (get_ptr_from_heap_cases (heap_at (system_runtime st) core) zone
              caps bytes Ha Hh) as [->|Hnz].
  - left. pose proof (set_heap_same SystemRuntime core st) as Hsame.
    cbn [class_heaps] in Hsame. now rewrite Hsame.
  - right. destruct (get_ptr_from_heap _ zone caps bytes) as [p h'].
    eauto.
Qed.

Lemma rmalloc_sys_blocks (zone caps core bytes : Z) (st : mm) (p : Z)
  (st' : mm) :
  rmalloc_sys zone caps core bytes st = Done (p, st') ->
  blocks_and_store_unchanged st st'.
Proof.
  unfold rmalloc_sys. destruct (negb _); [discriminate|].
  destruct (_ <? _); [discriminate|].
  intros [= _ <-]. now repeat split.
Qed.

Lemma blocks_unchanged_trace (st st' : mm) (v : Z) :
  blocks_and_store_unchanged st st' ->
  blocks_and_store_unchanged st (set_trace_updated v st').
Proof. now destruct st'. Qed.

Lemma blocks_unchanged_refl (st : mm) : blocks_and_store_unchanged st st.
Proof. now repeat split. Qed.

(** A zone allocation that returns null leaves the block heaps and the
    store as they were. *)
Lemma malloc_null_unchanged (zone caps bytes cpu : Z) (st st1 : mm) :
  alias_nonnull -> slots_nonnull st ->
  _malloc_unlocked zone caps bytes cpu st = Done (0, st1) ->
  blocks_and_store_unchanged st st1.
Proof.
  intros Ha Hst. unfold _malloc_unlocked. cbv zeta.
  destruct (_ =? RZONE_SYS).
  { destruct (rmalloc_sys zone caps cpu bytes st) as [[p st']|] eqn:Hsys;
      [|discriminate].
    cbn. unfold is_null. intros [= -> <-]. rewrite andb_false_r.
    apply blocks_unchanged_trace. eapply rmalloc_sys_blocks. exact Hsys. }
  destruct (_ =? RZONE_SYS_RUNTIME).
  { destruct (rmalloc_sys_runtime_cases zone caps cpu bytes st Ha Hst)
      as [->|[->|(p & st' & -> & Hp)]]; cbn.
    - discriminate.
    - rewrite andb_false_r. intros [= <-].
      apply blocks_unchanged_trace, blocks_unchanged_refl.
    - intros [= Hz _]. contradiction. }
  destruct (_ =? RZONE_RUNTIME); [|discriminate].
  destruct (rmalloc_runtime_cases zone caps bytes st Ha Hst) as [->|Hnz];
    cbn.
  - rewrite andb_false_r. intros [= <-].
    apply blocks_unchanged_trace, blocks_unchanged_refl.
  - destruct (rmalloc_runtime zone caps bytes st) as [p st']. cbn in *.
    intros [= Hz _]. contradiction.
Qed.

(** C8.  When the allocation a realloc starts with returns null, the
    realloc returns null in the state that allocation left, without copying
    and without calling free; and that state has the block heaps (every
    header and counter of the System-Runtime, Runtime and Buffer arrays)
    and the store of the state before the call. *)
Theorem realloc_failure_keeps_old (v : realloc_variant)
  (ptr zone caps bytes cpu : Z) (st st1 : mm) :
  ptr <> 0 ->
  bytes <> 0 ->
  alias_nonnull ->
  slots_nonnull st ->
  new_allocation v zone caps bytes cpu st = Done (0, st1) ->
  reallocate v ptr zone caps bytes cpu st = Done (0, st1)
  /\ blocks_and_store_unchanged st st1.
Proof.
  intros Hptr Hbytes Ha Hst Hnew. destruct v; cbn in Hnew |- *.
  - split.
    + unfold _realloc. destruct (Z.eqb_spec bytes 0); [contradiction|].
      now rewrite Hnew.
    + eapply malloc_null_unchanged; eauto.
  - injection Hnew as Hnew. split.
    + unfold _brealloc. destruct (Z.eqb_spec bytes 0); [contradiction|].
      now rewrite Hnew.
    + unfold _balloc_unlocked in Hnew.
      destruct (balloc_loop_cases zone caps bytes (length (buffer st)) 0 st
                  Ha Hst) as [Heq|Hnz].
      * rewrite Heq in Hnew. injection Hnew as <-.
        apply blocks_unchanged_refl.
      * rewrite Hnew in Hnz. contradiction.
Qed.

End FailedAllocation.

(** ** Free through the registry, and misaligned free *)

Section Alignment.
Context `{Platform}.

(** [free_block] is [free_block_at] on the heap the pointer resolves to. *)
Lemma free_block_resolved (cpu ptr : Z) (st : mm) (c : heap_class) (k : Z)
  (h' : mm_heap) (mu' : memory) :
  get_heap_from_ptr cpu ptr st = Some (c, k) ->
  free_block_at ptr (heap_at (class_heaps c st) k) (mem st)
  = Done (h', mu') ->
  free_block cpu ptr st = Done (set_mem mu' (set_heap c k h' st)).
Proof.
  intros Hres Hat. unfold free_block. now rewrite Hres, Hat.
Qed.

(** Inside the map [free_block] settles on, an address off the block
    boundaries makes it panic. *)
Lemma misaligned_free_is_fatal (h : mm_heap) (ptr i : Z) (mu : memory) :
  map_of_ptr h ptr i ->
  u32 (map_base (map_at h i)
       + block_size (map_at h i)
         * (u32 (ptr - map_base (map_at h i)) / block_size (map_at h i)))
  <> ptr ->
  free_block_at ptr h mu = Fatal.
Proof.
  intros Hmap Hoff. unfold free_block_at.
  rewrite (find_map_of_ptr h ptr i Hmap). cbv zeta.
  destruct (Z.eqb_spec
              (u32 (map_base (map_at h i)
                    + block_size (map_at h i)
                      * (u32 (ptr - map_base (map_at h i))
                         / block_size (map_at h i)))) ptr);
    [contradiction|reflexivity].
Qed.

End Alignment.

(** ** The byte counters of a heap *)

Lemma u32_sum_shift (a b d : Z) : u32 (u32 (a + d) + u32 (b - d)) = u32 (a + b).
Proof.
  unfold u32. rewrite <- Zplus_mod. f_equal. lia.
Qed.

Lemma u32_sum_shift' (a b d : Z) :
  u32 (u32 (a - d) + u32 (b + d)) = u32 (a + b).
Proof.
  unfold u32. rewrite <- Zplus_mod. f_equal. lia.
Qed.

Section ByteCounters.
Context `{Platform}.

(** Every operation on a heap moves bytes between [used] and [free]: the
    sum of the two counters, in 32-bit arithmetic, stays what it was. *)
Lemma alloc_block_info_sum (h : mm_heap) (level : Z) :
  info_sum (heap_info (snd (alloc_block h level))) = info_sum (heap_info h).
Proof. unfold alloc_block, info_sum. cbn. apply u32_sum_shift. Qed.

Lemma alloc_cont_blocks_info_sum (h : mm_heap) (level bytes : Z) :
  info_sum (heap_info (snd (alloc_cont_blocks h level bytes)))
  = info_sum (heap_info h).
Proof.
  unfold alloc_cont_blocks, info_sum. cbv zeta.
  destruct (_ || _); [reflexivity|]. cbn. apply u32_sum_shift.
Qed.

Lemma free_loop_info_sum (n : nat) : forall i m inf,
  info_sum (snd (free_loop n i m inf)) = info_sum inf.
Proof.
  induction n as [|n IH]; intros i m inf; [reflexivity|].
  cbn [free_loop]. rewrite IH. unfold info_sum. cbn.
  apply u32_sum_shift'.
Qed.

Lemma free_block_at_info_sum (ptr : Z) (h h' : mm_heap) (mu mu' : memory) :
  free_block_at ptr h mu = Done (h', mu') ->
  info_sum (heap_info h') = info_sum (heap_info h).
Proof.
  unfold free_block_at.
  destruct (scan_up _ 0 (Z.to_nat (heap_blocks h))) as [i|];
    [|now intros [= <- _]].
  cbv zeta. destruct (negb _); [discriminate|].
  pose proof (free_loop_info_sum
                (Z.to_nat (hdr_size (hdr_at (block (map_at h i))
                   (u32 (ptr - map_base (map_at h i))
                    / block_size (map_at h i)))))
                (u32 (ptr - map_base (map_at h i)) / block_size (map_at h i))
                (map_at h i) (heap_info h)) as Hsum.
  destruct (free_loop _ _ _ _) as [m1 inf]. cbn [snd] in Hsum.
  intros [= <- _]. exact Hsum.
Qed.

End ByteCounters.

(** ** Layout *)

Section Layout.
Context `{Platform}.

Lemma layout_maps_lookup (ms : list block_map) : forall b j mj,
  layout_maps b ms !! j = Some mj ->
  (forall m, m ∈ ms -> 0 <= block_size m * map_count m) ->
  0 <= b ->
  b + foldr (fun m acc => block_size m * map_count m + acc) 0 ms < 2 ^ 32 ->
  b <= map_base mj
  /\ map_end mj
     <= b + foldr (fun m acc => block_size m * map_count m + acc) 0 ms.
Proof.
  induction ms as [|m ms IH]; intros b j mj Hl Hnn Hb Hfit; [discriminate|].
  assert (Hm : 0 <= block_size m * map_count m)
    by (apply Hnn; left).
  assert (Hrest : 0 <= foldr (fun m acc => block_size m * map_count m + acc)
                             0 ms).
  { clear -Hnn. induction ms as [|m' ms IH]; cbn; [lia|].
    assert (0 <= block_size m' * map_count m')
      by (apply Hnn; right; left).
    assert (0 <= foldr (fun m acc => block_size m * map_count m + acc) 0 ms).
    { apply IH. intros m0 Hm0. apply Hnn.
      apply elem_of_cons in Hm0 as [->|Hm0]; [left|right; right]; trivial. }
    lia. }
  cbn [foldr] in Hfit |- *. destruct j as [|j]; cbn in Hl.
  - injection Hl as <-. unfold map_end. cbn. lia.
  - rewrite u32_small in Hl by lia.
    destruct (IH _ j mj Hl) as [Hlo Hhi]; try lia.
    intros m0 Hm0. apply Hnn. now right.
Qed.

(** Maps laid out by [init_heap_map] are in ascending address order and
    do not overlap, as [heap_ok] asks. *)
Lemma layout_maps_ascending (ms : list block_map) : forall b j k mj mk,
  (forall m, m ∈ ms -> 0 <= block_size m * map_count m) ->
  0 <= b ->
  b + foldr (fun m acc => block_size m * map_count m + acc) 0 ms < 2 ^ 32 ->
  (j < k)%nat ->
  layout_maps b ms !! j = Some mj ->
  layout_maps b ms !! k = Some mk ->
  map_end mj <= map_base mk.
Proof.
  induction ms as [|m ms IH]; intros b j k mj mk Hnn Hb Hfit Hjk Hj Hk;
    [discriminate|].
  assert (Hm : 0 <= block_size m * map_count m)
    by (apply Hnn; left).
  assert (Hnn' : forall m0, m0 ∈ ms -> 0 <= block_size m0 * map_count m0)
    by (intros m0 Hm0; apply Hnn; now right).
  cbn [foldr] in Hfit.
  destruct k as [|k]; [lia|]. cbn in Hk.
  assert (Hrest : 0 <= foldr (fun m acc => block_size m * map_count m + acc)
                             0 ms).
  { clear -Hnn'. induction ms as [|m' ms IH]; cbn; [lia|].
    assert (0 <= block_size m' * map_count m') by (apply Hnn'; left).
    assert (0 <= foldr (fun m acc => block_size m * map_count m + acc) 0 ms)
      by (apply IH; intros m0 Hm0; apply Hnn'; now right).
    lia. }
  rewrite u32_small in Hk by lia.
  destruct j as [|j]; cbn in Hj.
  - injection Hj as <-. unfold map_end at 1. cbn.
    destruct (layout_maps_lookup ms _ k mk Hk Hnn') as [Hlo _]; lia.
  - rewrite u32_small in Hj by lia.
    apply (IH (b + block_size m * map_count m) j k); trivial; lia.
Qed.

End Layout.

(** * The scenarios of the specification and the defects found *)

Section Scenarios.
#[local] Existing Instance host.

(** Scenario A: on four free blocks of 16 bytes, 10 bytes are served at
    the base, 16 bytes at base+16, and freeing the base leaves three free
    blocks with the hint back at 0. *)
Example scenario_A :
  final_maps Buffer
    (run_calls 0 [Balloc ZONE_BUFFER 0 10] (buffer_registry 4))
  = Some ([4096],
          [mk_map 16 4 3 1 [mk_hdr 1 1; hdr0; hdr0; hdr0] 4096],
          mk_info 16 48)
  /\ final_maps Buffer
       (run_calls 0 [Balloc ZONE_BUFFER 0 10; Balloc ZONE_BUFFER 0 16;
                     Rfree 4096] (buffer_registry 4))
     = Some ([4096; 4112; 0],
             [mk_map 16 4 3 0 [hdr0; mk_hdr 1 1; hdr0; hdr0] 4096],
             mk_info 16 48).
Proof. split; reflexivity. Qed.

(** Scenario B: 40 bytes take a span of three blocks at the base, and the
    next single block is the fourth one. *)
Example scenario_B :
  final_maps Buffer
    (run_calls 0 [Balloc ZONE_BUFFER 0 40; Balloc ZONE_BUFFER 0 16]
               (buffer_registry 4))
  = Some ([4096; 4144],
          [mk_map 16 4 0 3
             [mk_hdr 3 1; mk_hdr 0 1; mk_hdr 0 1; mk_hdr 1 1] 4096],
          mk_info 64 0).
Proof. reflexivity. Qed.

(** C1.  The capacity invariant holds of the fresh registry and fails
    after two calls of the buffer allocator: a block of 16 bytes, then a
    span of 32 bytes.  The span starts at slot 1, [free_count] drops by
    two, and one header only is marked, so [free_count] is 1 where
    [count] minus the used headers is 2. *)
Theorem span_allocation_breaks_capacity_invariant :
  capacity_ok (buffer_registry 4) = true
  /\ exists st,
       run_calls 0 [Balloc ZONE_BUFFER 0 16; Balloc ZONE_BUFFER 0 32]
                 (buffer_registry 4) = Done ([4096; 4112], st)
       /\ capacity_ok st = false
       /\ free_count (map_at (heap_at (buffer st) 0) 0) = 1
       /\ map_count (map_at (heap_at (buffer st) 0) 0)
          - used_headers (block (map_at (heap_at (buffer st) 0) 0)) = 2.
Proof.
  split; [reflexivity|].
  eexists. split; [reflexivity|]. repeat split.
Qed.

(** C2.  A span of two blocks that starts at slot 1 (pointer base+16)
    leaves header 2 unmarked: the marking loop runs while the index is
    below the count, not below start plus count.  The head header records
    size 2 and the hint moves to 3.  With the hint lowered by a later free,
    a single-block allocation then returns base+32, inside the span that
    is still allocated. *)
Theorem span_marking_stops_short :
  final_maps Buffer
    (run_calls 0 [Balloc ZONE_BUFFER 0 16; Balloc ZONE_BUFFER 0 32]
               (buffer_registry 4))
  = Some ([4096; 4112],
          [mk_map 16 4 1 3
             [mk_hdr 1 1; mk_hdr 2 1; mk_hdr 0 0; mk_hdr 0 0] 4096],
          mk_info 48 16)
  /\ final_maps Buffer
       (run_calls 0 [Balloc ZONE_BUFFER 0 16; Balloc ZONE_BUFFER 0 32;
                     Balloc ZONE_BUFFER 0 16; Rfree 4096;
                     Balloc ZONE_BUFFER 0 16; Rfree 4144;
                     Balloc ZONE_BUFFER 0 16]
                  (buffer_registry 4))
     = Some ([4096; 4112; 4144; 0; 4096; 0; 4128],
             [mk_map 16 4 0 3
                [mk_hdr 1 1; mk_hdr 2 1; mk_hdr 1 1; mk_hdr 0 0] 4096],
             mk_info 64 0).
Proof. split; reflexivity. Qed.

(** C3.  Three blocks are allocated, the first is freed and allocated
    again, the third is freed.  The map then has [free_count] 1 and
    [first_free] 0 with header 0 used, and the next allocation of 16 bytes
    returns base+0 a second time while it is still allocated. *)
Theorem single_block_handed_out_twice :
  final_maps Runtime
    (run_calls 0 [Malloc RZONE_RUNTIME 0 16; Malloc RZONE_RUNTIME 0 16;
                  Malloc RZONE_RUNTIME 0 16; Rfree 4096;
                  Malloc RZONE_RUNTIME 0 16; Rfree 4128]
               (runtime_registry 3))
  = Some ([4096; 4112; 4128; 0; 4096; 0],
          [mk_map 16 3 1 0 [mk_hdr 1 1; mk_hdr 1 1; mk_hdr 0 0] 4096],
          mk_info 32 16)
  /\ final_maps Runtime
       (run_calls 0 [Malloc RZONE_RUNTIME 0 16; Malloc RZONE_RUNTIME 0 16;
                     Malloc RZONE_RUNTIME 0 16; Rfree 4096;
                     Malloc RZONE_RUNTIME 0 16; Rfree 4128;
                     Malloc RZONE_RUNTIME 0 16]
                  (runtime_registry 3))
     = Some ([4096; 4112; 4128; 0; 4096; 0; 4096],
             [mk_map 16 3 0 2 [mk_hdr 1 1; mk_hdr 1 1; mk_hdr 0 0] 4096],
             mk_info 48 0).
Proof. split; reflexivity. Qed.

(** C5, as stated, fails: on core 0, address 1300 lies inside the System
    heap of core 1, and freeing it returns normally; the registry is as
    before but for the trace flag. *)
Lemma free_in_other_core_system_heap_returns :
  1300 <> 0
  /\ system (buffer_registry 4) !! 1%nat = Some (sys_heap 1280)
  /\ heap_base (sys_heap 1280) <= 1300
     < heap_base (sys_heap 1280) + heap_size (sys_heap 1280)
  /\ rfree 0 1300 (buffer_registry 4)
     = Done (set_trace_updated 1 (buffer_registry 4)).
Proof. repeat split; try reflexivity; discriminate. Qed.

(** C6.  After three blocks are allocated and the first two freed, a span
    of 48 bytes is granted over slots 0 to 2 although slot 2 is in use;
    once slot 2 is freed, a span of 32 bytes takes [free_count] from 1 to
    65535 and the hint to 4, the number of blocks.  The next allocation of
    16 bytes returns base + 4 * 16, the first address past the map. *)
Theorem single_block_pointer_past_the_map :
  final_maps Buffer
    (run_calls 0 [Balloc ZONE_BUFFER 0 16; Balloc ZONE_BUFFER 0 16;
                  Balloc ZONE_BUFFER 0 16; Rfree 4096; Rfree 4112;
                  Balloc ZONE_BUFFER 0 48; Rfree 4128;
                  Balloc ZONE_BUFFER 0 32]
               (buffer_registry 4))
  = Some ([4096; 4112; 4128; 0; 0; 4096; 0; 4128],
          [mk_map 16 4 65535 4
             [mk_hdr 3 1; mk_hdr 0 1; mk_hdr 2 0; mk_hdr 0 0] 4096],
          mk_info 80 4294967280)
  /\ final_maps Buffer
       (run_calls 0 [Balloc ZONE_BUFFER 0 16; Balloc ZONE_BUFFER 0 16;
                     Balloc ZONE_BUFFER 0 16; Rfree 4096; Rfree 4112;
                     Balloc ZONE_BUFFER 0 48; Rfree 4128;
                     Balloc ZONE_BUFFER 0 32; Balloc ZONE_BUFFER 0 16]
                  (buffer_registry 4))
     = Some ([4096; 4112; 4128; 0; 0; 4096; 0; 4128; 4096 + 4 * 16],
             [mk_map 16 4 65534 4
                [mk_hdr 3 1; mk_hdr 0 1; mk_hdr 2 0; mk_hdr 0 0] 4096],
             mk_info 96 4294967264).
Proof. split; reflexivity. Qed.

(** C4.  In the state the first eight calls of the sequence above leave,
    the map has [free_count] 65535 and the hint at 4, the number of
    blocks, and the heap counts 80 bytes used.  An allocation of 16 bytes
    then returns base + 4 * 16, the first address past the heap, and takes
    [free_count] to 65534 and the bytes used to 96.  Freeing the pointer
    returned finds no heap that contains it and returns: [free_count] and
    the byte counters stay where the allocation left them. *)
Theorem free_past_the_map_restores_nothing :
  final_maps Buffer
    (run_calls 0 [Balloc ZONE_BUFFER 0 16; Balloc ZONE_BUFFER 0 16;
                  Balloc ZONE_BUFFER 0 16; Rfree 4096; Rfree 4112;
                  Balloc ZONE_BUFFER 0 48; Rfree 4128;
                  Balloc ZONE_BUFFER 0 32]
               (buffer_registry 4))
  = Some ([4096; 4112; 4128; 0; 0; 4096; 0; 4128],
          [mk_map 16 4 65535 4
             [mk_hdr 3 1; mk_hdr 0 1; mk_hdr 2 0; mk_hdr 0 0] 4096],
          mk_info 80 4294967280)
  /\ final_maps Buffer
       (run_calls 0 [Balloc ZONE_BUFFER 0 16; Balloc ZONE_BUFFER 0 16;
                     Balloc ZONE_BUFFER 0 16; Rfree 4096; Rfree 4112;
                     Balloc ZONE_BUFFER 0 48; Rfree 4128;
                     Balloc ZONE_BUFFER 0 32; Balloc ZONE_BUFFER 0 16;
                     Rfree 4160]
                  (buffer_registry 4))
     = Some ([4096; 4112; 4128; 0; 0; 4096; 0; 4128; 4160; 0],
             [mk_map 16 4 65534 4
                [mk_hdr 3 1; mk_hdr 0 1; mk_hdr 2 0; mk_hdr 0 0] 4096],
             mk_info 96 4294967264).
Proof. split; reflexivity. Qed.

(** ** Instances of the theorems *)

Lemma scenario_heap_ok : heap_ok (scenario_heap 4).
Proof.
  unfold heap_ok. split; [reflexivity|]. split; [|split].
  - intros [|j] m Hl; cbn in Hl.
    + injection Hl as <-. unfold map_ok, map_end. cbn.
      change (length (replicate (Z.to_nat 4) hdr0)) with 4%nat. lia.
    + discriminate.
  - intros j [|k] mj mk Hjk Hj Hk; [lia|].
    cbn in Hk. discriminate.
  - cbn. lia.
Defined.

Lemma alloc_free_round_trip_witness :
  (exists h2 mu',
      free_block_at (fst (alloc_block (scenario_heap 4) 0))
                    (snd (alloc_block (scenario_heap 4) 0)) zero_store
      = Done (h2, mu')
      /\ free_count (map_at h2 0) = 4
      /\ heap_info h2 = mk_info 0 64)
  /\ (exists h2 mu',
         free_block_at (fst (alloc_cont_blocks (scenario_heap 4) 0 40))
                       (snd (alloc_cont_blocks (scenario_heap 4) 0 40))
                       zero_store
         = Done (h2, mu')
         /\ fst (alloc_cont_blocks (scenario_heap 4) 0 40) = 4096
         /\ free_count (map_at h2 0) = 4
         /\ heap_info h2 = mk_info 0 64
         /\ forall j, 0 <= j < 3 -> hdr_at (block (map_at h2 0)) j
                                    = mk_hdr 0 0).
Proof.
  destruct (alloc_free_round_trip (scenario_heap 4) 0 (fresh_map 16 4 4096)
              zero_store scenario_heap_ok eq_refl) as [Hsingle Hspan].
  split.
  - apply Hsingle. reflexivity.
  - apply (Hspan 40); [reflexivity | discriminate | discriminate].
Defined.

Lemma free_in_own_system_heap_is_fatal_witness :
  _rfree_unlocked 0 1030 (buffer_registry 4) = Fatal
  /\ rfree 0 1030 (buffer_registry 4) = Fatal.
Proof.
  apply free_in_own_system_heap_is_fatal;
    repeat split; vm_compute; try reflexivity; discriminate.
Defined.

Lemma heap_selection_by_caps_witness :
  rmalloc_runtime RZONE_RUNTIME 2 16 caps_registry
  = (fst (get_ptr_from_heap (heap_at (buffer caps_registry) 0)
                            RZONE_RUNTIME 2 16),
     set_heap Buffer 0
       (snd (get_ptr_from_heap (heap_at (buffer caps_registry) 0)
                               RZONE_RUNTIME 2 16)) caps_registry).
Proof.
  apply (heap_selection_by_caps RZONE_RUNTIME 2 16 caps_registry).
  - intros k Hk. cbn in Hk. assert (k = 0) as -> by lia. discriminate.
  - split; [cbn; lia|]. split; [reflexivity|]. intros k Hk. lia.
Defined.

Lemma full_registry_slots_nonnull : slots_nonnull full_registry.
Proof.
  intros c h Hc Hh m Hm.
  destruct c; [contradiction| | |]; cbn in Hh.
  - apply elem_of_cons in Hh as [->|Hh];
      [|apply elem_of_cons in Hh as [->|Hh];
        [|apply elem_of_nil in Hh; contradiction]];
      cbn in Hm; apply elem_of_cons in Hm as [->|Hm];
      try discriminate; apply elem_of_nil in Hm; contradiction.
  - apply elem_of_nil in Hh. contradiction.
  - apply elem_of_cons in Hh as [->|Hh];
      [|apply elem_of_nil in Hh; contradiction].
    cbn in Hm. apply elem_of_cons in Hm as [->|Hm];
      try discriminate; apply elem_of_nil in Hm; contradiction.
Defined.

Lemma realloc_failure_keeps_old_witness :
  reallocate BufferRealloc 4096 ZONE_BUFFER 0 16 0 full_registry
  = Done (0, full_registry)
  /\ blocks_and_store_unchanged full_registry full_registry.
Proof.
  apply realloc_failure_keeps_old.
  - discriminate.
  - discriminate.
  - intros p Hp. exact Hp.
  - exact full_registry_slots_nonnull.
  - reflexivity.
Defined.

Lemma aligned_double_free_is_benign_witness :
  free_block 0 4112 (buffer_registry 4)
  = Done (set_heap Buffer 0
            (set_map 0 (set_first_free 0 (fresh_map 16 4 4096))
                     (scenario_heap 4))
            (buffer_registry 4)).
Proof.
  apply (aligned_double_free_is_benign 0 4112 (buffer_registry 4) Buffer 0 0).
  - reflexivity.
  - split; [split; [discriminate | reflexivity]|].
    split; [reflexivity|]. intros k Hk. lia.
  - reflexivity.
  - reflexivity.
Defined.

End Scenarios.

(** * Further properties of the allocator *)

(** ** The store *)

Lemma memset_spec (n : nat) : forall m d v a,
  memset m d v n a
  = if (d <=? a) && (a <? d + Z.of_nat n) then v else m a.
Proof.
  induction n as [|n IH]; intros m d v a.
  - cbn [memset memcpy]. change (Z.of_nat 0) with 0.
    destruct (Z.leb_spec d a), (Z.ltb_spec a (d + 0));
      trivial; lia.
  - cbn [memset]. unfold store. rewrite IH.
    destruct (Z.eqb_spec a (d + Z.of_nat n)) as [->|Hne].
    + destruct (Z.leb_spec d (d + Z.of_nat n)),
        (Z.ltb_spec (d + Z.of_nat n) (d + Z.of_nat (S n))); trivial; lia.
    + destruct (Z.leb_spec d a), (Z.ltb_spec a (d + Z.of_nat n)),
        (Z.ltb_spec a (d + Z.of_nat (S n))); trivial; lia.
Qed.

Lemma memcpy_spec (n : nat) : forall m d s a,
  memcpy m d s n a
  = if (d <=? a) && (a <? d + Z.of_nat n) then m (s + (a - d)) else m a.
Proof.
  induction n as [|n IH]; intros m d s a.
  - cbn [memset memcpy]. change (Z.of_nat 0) with 0.
    destruct (Z.leb_spec d a), (Z.ltb_spec a (d + 0));
      trivial; lia.
  - cbn [memcpy]. unfold store. rewrite IH.
    destruct (Z.eqb_spec a (d + Z.of_nat n)) as [->|Hne].
    + destruct (Z.leb_spec d (d + Z.of_nat n)),
        (Z.ltb_spec (d + Z.of_nat n) (d + Z.of_nat (S n))); try lia.
      cbn [andb]. f_equal. lia.
    + destruct (Z.leb_spec d a), (Z.ltb_spec a (d + Z.of_nat n)),
        (Z.ltb_spec a (d + Z.of_nat (S n))); trivial; lia.
Qed.

Lemma bzero_zeroes (m : memory) (ptr bytes i : Z) :
  0 <= i < bytes -> bzero m ptr bytes (ptr + i) = 0.
Proof.
  intros Hi. unfold bzero. rewrite memset_spec, Z2Nat.id by lia.
  destruct (Z.leb_spec ptr (ptr + i)), (Z.ltb_spec (ptr + i) (ptr + bytes));
    trivial; lia.
Qed.

(** X1.  For regions that lie inside the 32-bit address space: when
    [arch_memcpy_s] returns 0, the two regions neither overlap nor touch,
    the source is not longer than the destination, every byte of the
    destination holds the byte the source held, and every address outside
    the bytes copied keeps its value. *)
Theorem arch_memcpy_s_copies (m m' : memory) (dest dest_size src src_size : Z) :
  0 <= dest -> 0 <= src ->
  0 <= dest_size -> 0 <= src_size ->
  dest + dest_size < 2 ^ 32 -> src + src_size < 2 ^ 32 ->
  arch_memcpy_s m dest dest_size src src_size = (0, m') ->
  (dest + dest_size < src \/ src + src_size < dest)
  /\ src_size <= dest_size
  /\ (forall i, 0 <= i < src_size -> m' (dest + i) = m (src + i))
  /\ (forall a, ~ in_range dest src_size a -> m' a = m a).
Proof.
  intros Hd0 Hs0 Hd Hs Hde Hse. unfold arch_memcpy_s, EINVAL. cbv zeta.
  rewrite (u32_small (dest + dest_size)), (u32_small (src + src_size))
    by lia.
  destruct (_ || _); [discriminate|].
  destruct (Z.leb_spec src (dest + dest_size)),
    (Z.leb_spec (dest + dest_size) (src + src_size)),
    (Z.leb_spec dest (src + src_size)),
    (Z.leb_spec (src + src_size) (dest + dest_size));
    cbn [andb orb]; try discriminate;
    (destruct (Z.ltb_spec dest_size src_size); [discriminate|]);
    intros [= <-];
    (split; [lia|]); (split; [lia|]); split.
  all: try (intros i Hi; rewrite memcpy_spec, Z2Nat.id by lia;
            destruct (Z.leb_spec dest (dest + i)),
              (Z.ltb_spec (dest + i) (dest + src_size)); try lia;
            cbn [andb]; f_equal; lia).
  all: intros a Ha; unfold in_range in Ha;
    rewrite memcpy_spec, Z2Nat.id by lia;
    destruct (Z.leb_spec dest a), (Z.ltb_spec a (dest + src_size));
    trivial; lia.
Qed.

Lemma arch_memcpy_s_closed_ranges
  (m : memory) (dest dest_size src src_size : Z) :
  0 <= dest -> 0 <= src ->
  0 <= src_size <= dest_size ->
  dest + dest_size < 2 ^ 32 -> src + src_size < 2 ^ 32 ->
  dest <= src + src_size -> src <= dest + dest_size ->
  arch_memcpy_s m dest dest_size src src_size = (- EINVAL, m).
Proof.
  intros Hd0 Hs0 Hs Hde Hse H1 H2. unfold arch_memcpy_s. cbv zeta.
  rewrite (u32_small (dest + dest_size)), (u32_small (src + src_size))
    by lia.
  destruct (_ || _); trivial.
  destruct (Z.leb_spec src (dest + dest_size)),
    (Z.leb_spec (dest + dest_size) (src + src_size)),
    (Z.leb_spec dest (src + src_size)),
    (Z.leb_spec (src + src_size) (dest + dest_size));
    cbn [andb orb]; trivial; lia.
Qed.

Lemma arch_memcpy_s_apart (m : memory) (dest src n : Z) :
  dest <> 0 -> src <> 0 -> 0 <= dest -> 0 <= src -> 0 <= n ->
  dest + n < 2 ^ 32 -> src + n < 2 ^ 32 ->
  dest + n < src \/ src + n < dest ->
  arch_memcpy_s m dest n src n = (0, memcpy m dest src (Z.to_nat n)).
Proof.
  intros Hd Hs Hd0 Hs0 Hn Hde Hse Hap. unfold arch_memcpy_s. cbv zeta.
  rewrite (u32_small (dest + n)), (u32_small (src + n)) by lia.
  destruct (Z.eqb_spec dest 0); [contradiction|].
  destruct (Z.eqb_spec src 0); [contradiction|]. cbn [orb].
  destruct (Z.leb_spec src (dest + n)), (Z.leb_spec (dest + n) (src + n)),
    (Z.leb_spec dest (src + n)), (Z.leb_spec (src + n) (dest + n));
    cbn [andb orb]; try lia;
    destruct (Z.ltb_spec n n); trivial; lia.
Qed.

(** X2.  [arch_memcpy_s] refuses regions inside the 32-bit address space
    that overlap and regions that merely touch (one ends where the other
    starts): it returns -EINVAL and copies nothing. *)
Theorem arch_memcpy_s_refuses_touching
  (m : memory) (dest dest_size src src_size : Z) :
  0 <= dest -> 0 <= src ->
  0 <= src_size <= dest_size ->
  dest + dest_size < 2 ^ 32 -> src + src_size < 2 ^ 32 ->
  dest <= src + src_size -> src <= dest + dest_size ->
  arch_memcpy_s m dest dest_size src src_size = (- EINVAL, m).
Proof. exact (arch_memcpy_s_closed_ranges m dest dest_size src src_size). Qed.

(** X3.  [arch_memset_s] refuses a null destination and a count larger
    than the destination; otherwise it returns 0, the [count] bytes from
    the destination on hold the fill value reduced to a byte, and the rest
    of the store is as before. *)
Theorem arch_memset_s_fills (m : memory) (dest dest_size data count : Z) :
  0 <= count ->
  (dest = 0 \/ dest_size < count ->
   arch_memset_s m dest dest_size data count = (- EINVAL, m))
  /\ (dest <> 0 -> count <= dest_size ->
      fst (arch_memset_s m dest dest_size data count) = 0
      /\ (forall i, 0 <= i < count ->
            snd (arch_memset_s m dest dest_size data count) (dest + i)
            = data mod 256)
      /\ (forall a, ~ in_range dest count a ->
            snd (arch_memset_s m dest dest_size data count) a = m a)).
Proof.
  intros Hc. unfold arch_memset_s. split.
  - intros [->|Hlt]; [reflexivity|].
    destruct (dest =? 0); trivial.
    destruct (Z.ltb_spec dest_size count); trivial; lia.
  - intros Hd Hle. destruct (Z.eqb_spec dest 0); [contradiction|].
    destruct (Z.ltb_spec dest_size count); [lia|]. cbn [fst snd].
    split; [reflexivity|]. split.
    + intros i Hi. rewrite memset_spec, Z2Nat.id by lia.
      destruct (Z.leb_spec dest (dest + i)),
        (Z.ltb_spec (dest + i) (dest + count)); trivial; lia.
    + intros a Ha. unfold in_range in Ha.
      rewrite memset_spec, Z2Nat.id by lia.
      destruct (Z.leb_spec dest a), (Z.ltb_spec a (dest + count));
        trivial; lia.
Qed.

Section ZeroFill.
Context `{Platform}.

(** X4.  The memory [_zalloc] and [rzalloc_core_sys] return is zeroed:
    every one of the [bytes] bytes from a non-null returned pointer on
    reads 0 in the store they leave. *)
Theorem zalloc_zero_fills (zone caps bytes cpu : Z) (st st' : mm)
  (ptr i : Z) :
  ptr <> 0 -> 0 <= i < bytes ->
  (_zalloc zone caps bytes cpu st = Done (ptr, st') ->
   mem st' (ptr + i) = 0)
  /\ (rzalloc_core_sys cpu bytes st = Done (ptr, st') ->
      mem st' (ptr + i) = 0).
Proof.
  intros Hp Hi. split.
  - unfold _zalloc, _malloc.
    destruct (_malloc_unlocked zone caps bytes cpu st) as [[p st1]|];
      [|discriminate].
    cbn. intros [= -> <-]. unfold is_null.
    destruct (Z.eqb_spec ptr 0); [contradiction|].
    destruct st1; cbn. now apply bzero_zeroes.
  - unfold rzalloc_core_sys.
    destruct (rmalloc_sys RZONE_SYS 0 cpu bytes st) as [[p st1]|];
      [|discriminate].
    cbn. intros [= -> <-]. unfold is_null.
    destruct (Z.eqb_spec ptr 0); [contradiction|].
    destruct st1; cbn. now apply bzero_zeroes.
Qed.

End ZeroFill.

(** ** Pointer resolution and free *)

Lemma class_heaps_set_heap_ne (c c' : heap_class) (k : Z) (h : mm_heap)
  (st : mm) :
  c <> c' -> class_heaps c (set_heap c' k h st) = class_heaps c st.
Proof. intros Hne. destruct c, c'; trivial; contradiction. Qed.

Lemma class_heaps_set_mem (c : heap_class) (mu : memory) (st : mm) :
  class_heaps c (set_mem mu st) = class_heaps c st.
Proof. now destruct c. Qed.

Lemma class_heaps_set_trace (c : heap_class) (v : Z) (st : mm) :
  class_heaps c (set_trace_updated v st) = class_heaps c st.
Proof. now destruct c. Qed.

Section Resolution.
Context `{Platform}.

Lemma get_heap_from_ptr_props (cpu ptr : Z) (st : mm) :
  (forall c k,
      get_heap_from_ptr cpu ptr st = Some (c, k) ->
      c <> System /\ in_heap (heap_at (class_heaps c st) k) ptr = true)
  /\ (get_heap_from_ptr cpu ptr st = None <->
      in_heap (heap_at (system_runtime st) cpu) ptr = false
      /\ (forall k, 0 <= k < Z.of_nat (length (runtime st)) ->
                    in_heap (heap_at (runtime st) k) ptr = false)
      /\ (forall k, 0 <= k < Z.of_nat (length (buffer st)) ->
                    in_heap (heap_at (buffer st) k) ptr = false))
  /\ (forall k,
         get_heap_from_ptr cpu ptr st = Some (Buffer, k) ->
         forall j, 0 <= j < Z.of_nat (length (runtime st)) ->
                   in_heap (heap_at (runtime st) j) ptr = false).
Proof.
  unfold get_heap_from_ptr.
  destruct (in_heap (heap_at (system_runtime st) cpu) ptr) eqn:Hsr.
  { split; [|split].
    - intros c k [= <- <-]. split; [discriminate|exact Hsr].
    - split; [discriminate|]. intros [Hf _]. discriminate.
    - intros k [=]. }
  destruct (scan_up _ 0 (length (runtime st))) as [i|] eqn:Hr.
  { pose proof (scan_up_Some _ _ _ _ Hr) as (_ & Hi & _).
    split; [|split].
    - intros c k [= <- <-]. split; [discriminate|exact Hi].
    - split; [discriminate|]. intros (_ & Hall & _).
      apply scan_up_Some in Hr as (Hrange & _).
      rewrite Hall in Hi by lia. discriminate.
    - intros k [=]. }
  rewrite scan_up_None in Hr.
  destruct (scan_up _ 0 (length (buffer st))) as [i|] eqn:Hb.
  { pose proof (scan_up_Some _ _ _ _ Hb) as (Hrange & Hi & _).
    split; [|split].
    - intros c k [= <- <-]. split; [discriminate|exact Hi].
    - split; [discriminate|]. intros (_ & _ & Hall).
      rewrite Hall in Hi by lia. discriminate.
    - intros k _ j Hj. apply Hr. lia. }
  rewrite scan_up_None in Hb.
  split; [|split].
  - intros c k [=].
  - split; [|trivial]. intros _. split; [trivial|].
    split; intros k Hk; [apply Hr|apply Hb]; lia.
  - intros k [=].
Qed.

(** X5.  The heap [get_heap_from_ptr] returns contains the pointer and is
    never a System heap; it returns none exactly when the pointer lies in
    neither the System-Runtime heap of the core, nor a Runtime heap, nor a
    Buffer heap; and a Buffer heap is returned only when no Runtime heap
    contains the pointer. *)
Theorem get_heap_from_ptr_spec (cpu ptr : Z) (st : mm) :
  (forall c k,
      get_heap_from_ptr cpu ptr st = Some (c, k) ->
      c <> System /\ in_heap (heap_at (class_heaps c st) k) ptr = true)
  /\ (get_heap_from_ptr cpu ptr st = None <->
      in_heap (heap_at (system_runtime st) cpu) ptr = false
      /\ (forall k, 0 <= k < Z.of_nat (length (runtime st)) ->
                    in_heap (heap_at (runtime st) k) ptr = false)
      /\ (forall k, 0 <= k < Z.of_nat (length (buffer st)) ->
                    in_heap (heap_at (buffer st) k) ptr = false))
  /\ (forall k,
         get_heap_from_ptr cpu ptr st = Some (Buffer, k) ->
         forall j, 0 <= j < Z.of_nat (length (runtime st)) ->
                   in_heap (heap_at (runtime st) j) ptr = false).
Proof. exact (get_heap_from_ptr_props cpu ptr st). Qed.

(** X6.  A non-null pointer that lies in no heap the calling core can free
    from is ignored: [rfree] returns normally and the registry and the
    store are as before, but for the trace flag. *)
Theorem rfree_ignores_foreign_pointer (cpu ptr : Z) (st : mm) :
  ptr <> 0 ->
  in_heap (heap_at (system st) cpu) (cached_address ptr) = false ->
  in_heap (heap_at (system_runtime st) cpu) (cached_address ptr) = false ->
  (forall k, 0 <= k < Z.of_nat (length (runtime st)) ->
             in_heap (heap_at (runtime st) k) (cached_address ptr) = false) ->
  (forall k, 0 <= k < Z.of_nat (length (buffer st)) ->
             in_heap (heap_at (buffer st) k) (cached_address ptr) = false) ->
  rfree cpu ptr st = Done (set_trace_updated 1 st).
Proof.
  intros Hp Hsys Hsr Hr Hb.
  unfold rfree, _rfree_unlocked, is_null.
  destruct (Z.eqb_spec ptr 0); [contradiction|].
  fold (cached_address ptr). rewrite Hsys.
  unfold free_block.
  destruct (get_heap_from_ptr_props cpu (cached_address ptr) st)
    as (_ & Hnone & _).
  rewrite (proj2 Hnone); [reflexivity|]. auto.
Qed.

(** X7.  Whatever pointer it is given, a free that returns has changed at
    most the heap array of the class the pointer resolves to: the System
    heaps, and every array of another class, are as before. *)
Theorem rfree_confined (cpu ptr : Z) (st st' : mm) :
  rfree cpu ptr st = Done st' ->
  system st' = system st
  /\ forall c,
       (forall k, get_heap_from_ptr cpu (cached_address ptr) st
                  <> Some (c, k)) ->
       class_heaps c st' = class_heaps c st.
Proof.
  unfold rfree, _rfree_unlocked.
  destruct (is_null ptr); [intros [= <-]; auto|].
  fold (cached_address ptr).
  destruct (in_heap _ _); [discriminate|].
  unfold free_block.
  destruct (get_heap_from_ptr_props cpu (cached_address ptr) st)
    as (Hsome & _ & _).
  destruct (get_heap_from_ptr cpu (cached_address ptr) st)
    as [[c0 k0]|] eqn:Hres.
  - destruct (Hsome c0 k0 eq_refl) as [Hc0 _].
    destruct (free_block_at _ _ _) as [[h' mu]|]; [|discriminate].
    cbn. intros [= <-].
    assert (Hcls : forall c, c <> c0 ->
              class_heaps c (set_trace_updated 1
                               (set_mem mu (set_heap c0 k0 h' st)))
              = class_heaps c st).
    { intros c Hc. rewrite class_heaps_set_trace, class_heaps_set_mem.
      now apply class_heaps_set_heap_ne. }
    split.
    + apply (Hcls System). congruence.
    + intros c Hc. apply Hcls. intros ->. now apply (Hc k0).
  - cbn. intros [= <-]. split; [reflexivity|].
    intros c _. apply class_heaps_set_trace.
Qed.

(** X8.  Reallocating the null pointer is allocating: for a non-zero size
    [_realloc] on NULL is [_malloc_unlocked] and [_brealloc] on NULL is
    [_balloc_unlocked], pointer and state alike; nothing is copied and
    nothing is freed. *)
Theorem realloc_null_is_alloc (zone caps bytes cpu : Z) (st : mm) :
  bytes <> 0 ->
  _realloc 0 zone caps bytes cpu st = _malloc_unlocked zone caps bytes cpu st
  /\ _brealloc 0 zone caps bytes cpu st
     = Done (_balloc_unlocked zone caps bytes st).
Proof.
  intros Hb. unfold _realloc, _brealloc.
  destruct (Z.eqb_spec bytes 0); [contradiction|]. split.
  - destruct (_malloc_unlocked zone caps bytes cpu st) as [[p st1]|];
      [|reflexivity].
    cbn. change (is_null 0) with true. rewrite andb_false_r.
    destruct (negb (is_null p)); reflexivity.
  - destruct (_balloc_unlocked zone caps bytes st) as [p st1].
    change (is_null 0) with true. rewrite andb_false_r.
    destruct (negb (is_null p)); reflexivity.
Qed.

End Resolution.

(** ** What no operation changes *)



(** The state of a [Done] result, without unfolding it. *)
Ltac result_state H d :=
  apply (f_equal (fun o => match o with
                           | Done (_, s) => s
                           | Fatal => d
                           end)) in H;
  cbv beta iota in H.

Section Shape.
Context `{Platform}.


















End Shape.

(** ** The System heap: a bump allocator *)

Lemma heap_at_set_heap_eq (c : heap_class) (k : Z) (h' : mm_heap) (st : mm) :
  (Z.to_nat k < length (class_heaps c st))%nat ->
  heap_at (class_heaps c (set_heap c k h' st)) k = h'.
Proof.
  intros Hk. unfold heap_at.
  destruct c; cbn in *; now rewrite list_lookup_insert_eq.
Qed.

Lemma align_up_divides (used a : Z) :
  0 < a ->
  (used + (if used mod a =? 0 then 0 else a - used mod a)) mod a = 0.
Proof.
  intros Ha. destruct (Z.eqb_spec (used mod a) 0) as [Hz|Hnz].
  - now rewrite Z.add_0_r.
  - rewrite (Z.div_mod used a) at 1 by lia.
    replace (a * (used / a) + used mod a + (a - used mod a))
      with ((used / a + 1) * a) by lia.
    apply Z.mod_mul. lia.
Qed.

Section SystemHeap.
Context `{Platform}.

Lemma rmalloc_sys_result (zone caps core bytes : Z) (st st' : mm) (p : Z)
  (h : mm_heap) :
  system st !! Z.to_nat core = Some h ->
  sys_heap_ok h ->
  0 < PLATFORM_DCACHE_ALIGN ->
  0 <= bytes -> bytes + PLATFORM_DCACHE_ALIGN <= 2 ^ 32 ->
  uncached_zone zone = false ->
  rmalloc_sys zone caps core bytes st = Done (p, st') ->
  heap_at (system st') core
  = set_info (mk_info (p - heap_base h + bytes)
                      (heap_size h - (p - heap_base h + bytes))) h
  /\ info_used (heap_info h) <= p - heap_base h
  /\ p - heap_base h + bytes <= heap_size h
  /\ (p - heap_base h) mod PLATFORM_DCACHE_ALIGN = 0.
Proof.
  intros Hl (Hb & Hend & Hu & Hf & Hsum) Ha Hbytes Hfit Hz.
  unfold rmalloc_sys. rewrite Hz.
  assert (Hh : heap_at (system st) core = h)
    by (unfold heap_at; now rewrite Hl).
  rewrite Hh. destruct (negb _); [discriminate|].
  pose proof (align_up_divides (info_used (heap_info h))
                PLATFORM_DCACHE_ALIGN Ha) as Hdiv.
  pose proof (Z.mod_pos_bound (info_used (heap_info h))
                PLATFORM_DCACHE_ALIGN Ha) as Hmod.
  set (al := if info_used (heap_info h) mod PLATFORM_DCACHE_ALIGN =? 0
             then 0
             else PLATFORM_DCACHE_ALIGN
                  - info_used (heap_info h) mod PLATFORM_DCACHE_ALIGN) in *.
  assert (Hal : 0 <= al < PLATFORM_DCACHE_ALIGN).
  { unfold al. destruct (Z.eqb_spec (info_used (heap_info h)
                                     mod PLATFORM_DCACHE_ALIGN) 0); lia. }
  rewrite (u32_small (al + bytes)) by lia.
  destruct (Z.ltb_spec (info_free (heap_info h)) (al + bytes));
    [discriminate|].
  rewrite (u32_small (info_used (heap_info h) + al)) by lia.
  rewrite (u32_small (heap_base h + (info_used (heap_info h) + al))) by lia.
  rewrite (u32_small (info_used (heap_info h) + al + bytes)) by lia.
  rewrite (u32_small (info_free (heap_info h) - (al + bytes))) by lia.
  intros Heq. pose proof Heq as Hp.
  apply (f_equal (fun o => match o with
                           | Done (q, _) => q
                           | Fatal => 0
                           end)) in Hp.
  cbv beta iota in Hp. result_state Heq st. subst p st'.
  rewrite (heap_at_set_heap_eq System core _ st)
    by (apply lookup_lt_is_Some; cbn; eauto).
  replace (heap_base h + (info_used (heap_info h) + al) - heap_base h)
    with (info_used (heap_info h) + al) by lia.
  repeat split; try lia; trivial.
  f_equal. f_equal. lia.
Qed.

(** X10.  A System allocation that returns hands out [bytes] bytes inside
    the heap, at an offset from the heap base that is a multiple of the
    cache line and not below the bytes already used; afterwards [used] is
    the end of that region and [used + free] is still the size of the
    heap. *)
Theorem rmalloc_sys_inside_heap (zone caps core bytes : Z) (st st' : mm)
  (p : Z) (h : mm_heap) :
  system st !! Z.to_nat core = Some h ->
  sys_heap_ok h ->
  0 < PLATFORM_DCACHE_ALIGN ->
  0 <= bytes -> bytes + PLATFORM_DCACHE_ALIGN <= 2 ^ 32 ->
  uncached_zone zone = false ->
  rmalloc_sys zone caps core bytes st = Done (p, st') ->
  heap_base h + info_used (heap_info h) <= p
  /\ p + bytes <= heap_base h + heap_size h
  /\ (p - heap_base h) mod PLATFORM_DCACHE_ALIGN = 0
  /\ sys_heap_ok (heap_at (system st') core)
  /\ heap_base (heap_at (system st') core)
     + info_used (heap_info (heap_at (system st') core)) = p + bytes.
Proof.
  intros Hl Hok Ha Hb Hfit Hz Hr.
  destruct (rmalloc_sys_result zone caps core bytes st st' p h Hl Hok Ha Hb
              Hfit Hz Hr) as (Hh' & Hlo & Hhi & Hdiv).
  destruct Hok as (Hbase & Hend & Hu & Hf & Hsum).
  rewrite Hh'. unfold sys_heap_ok. cbn. repeat split; try lia; trivial.
Qed.

(** X11.  On a System heap that lies inside the address space and whose
    counters add up to its size, two allocations in a row on the same
    core, each of a size with [bytes + PLATFORM_DCACHE_ALIGN <= 2 ^ 32]
    and in a cached zone, do not overlap: the second region starts at or
    after the end of the first and ends inside the heap.  (A larger size
    makes the test of the free bytes wrap and is not covered.) *)
Theorem rmalloc_sys_regions_disjoint
  (zone1 caps1 bytes1 zone2 caps2 bytes2 core : Z) (st st1 st2 : mm)
  (p1 p2 : Z) (h : mm_heap) :
  system st !! Z.to_nat core = Some h ->
  sys_heap_ok h ->
  0 < PLATFORM_DCACHE_ALIGN ->
  0 <= bytes1 -> bytes1 + PLATFORM_DCACHE_ALIGN <= 2 ^ 32 ->
  0 <= bytes2 -> bytes2 + PLATFORM_DCACHE_ALIGN <= 2 ^ 32 ->
  uncached_zone zone1 = false -> uncached_zone zone2 = false ->
  rmalloc_sys zone1 caps1 core bytes1 st = Done (p1, st1) ->
  rmalloc_sys zone2 caps2 core bytes2 st1 = Done (p2, st2) ->
  p1 + bytes1 <= p2 /\ p2 + bytes2 <= heap_base h + heap_size h.
Proof.
  intros Hl Hok Ha Hb1 Hf1 Hb2 Hf2 Hz1 Hz2 Hr1 Hr2.
  destruct (rmalloc_sys_result zone1 caps1 core bytes1 st st1 p1 h Hl Hok Ha
              Hb1 Hf1 Hz1 Hr1) as (Hh1 & Hlo1 & Hhi1 & _).
  pose proof Hok as (Hbase & Hend & Hu & Hf & Hsum).
  assert (Hok1 : sys_heap_ok (heap_at (system st1) core)).
  { rewrite Hh1. unfold sys_heap_ok. cbn. repeat split; lia. }
  assert (Hl1 : system st1 !! Z.to_nat core = Some (heap_at (system st1) core)).
  { unfold rmalloc_sys in Hr1. destruct (negb _); [discriminate|].
    destruct (_ <? _); [discriminate|].
    result_state Hr1 st. subst st1. unfold heap_at. cbn.
    rewrite list_lookup_insert_eq; [reflexivity|].
    apply lookup_lt_is_Some; eauto. }
  destruct (rmalloc_sys_result zone2 caps2 core bytes2 st1 st2 p2 _ Hl1
              Hok1 Ha Hb2 Hf2 Hz2 Hr2) as (_ & Hlo2 & Hhi2 & _).
  rewrite Hh1 in Hlo2, Hhi2. cbn in Hlo2, Hhi2. lia.
Qed.

(** X12.  [free_heap] panics on the master core and for any zone but
    RZONE_SYS.  On another core it empties the System heap of the core,
    and the next System allocation there starts at the base of the heap
    again, whatever had been allocated before. *)
Theorem free_heap_then_allocate (zone caps cpu bytes : Z) (st : mm)
  (h : mm_heap) :
  (free_heap zone PLATFORM_MASTER_CORE_ID st = Fatal)
  /\ (zone <> RZONE_SYS -> free_heap zone cpu st = Fatal)
  /\ (cpu <> PLATFORM_MASTER_CORE_ID ->
      system st !! Z.to_nat cpu = Some h ->
      0 <= heap_base h < 2 ^ 32 ->
      0 <= bytes <= heap_size h -> heap_size h < 2 ^ 32 ->
      caps_match h caps = true ->
      uncached_zone zone = false ->
      exists st1 st2,
        free_heap RZONE_SYS cpu st = Done st1
        /\ heap_info (heap_at (system st1) cpu) = mk_info 0 (heap_size h)
        /\ rmalloc_sys zone caps cpu bytes st1 = Done (heap_base h, st2)
        /\ heap_info (heap_at (system st2) cpu)
           = mk_info bytes (heap_size h - bytes)).
Proof.
  split; [|split].
  - unfold free_heap. now rewrite Z.eqb_refl.
  - intros Hz. unfold free_heap.
    destruct (Z.eqb_spec zone RZONE_SYS); [contradiction|].
    cbn [negb]. now rewrite orb_true_r.
  - intros Hcpu Hl Hb Hbytes Hsz Hcaps Hzone.
    assert (Hlen : (Z.to_nat cpu < length (system st))%nat)
      by (apply lookup_lt_is_Some; eauto).
    assert (Hh : heap_at (system st) cpu = h)
      by (unfold heap_at; now rewrite Hl).
    unfold free_heap.
    destruct (Z.eqb_spec cpu PLATFORM_MASTER_CORE_ID); [contradiction|].
    rewrite Z.eqb_refl. cbn [negb orb]. rewrite Hh.
    eexists. eexists. split; [reflexivity|].
    rewrite (heap_at_set_heap_eq System cpu _ st Hlen).
    split; [reflexivity|].
    unfold rmalloc_sys.
    rewrite (heap_at_set_heap_eq System cpu _ st Hlen), Hzone.
    change (caps_match (set_info _ h) caps) with (caps_match h caps).
    rewrite Hcaps. cbn [negb heap_info set_info info_used info_free
                        heap_base].
    change (0 mod PLATFORM_DCACHE_ALIGN) with 0. cbn [Z.eqb].
    rewrite ?Z.add_0_l, ?Z.add_0_r.
    rewrite (u32_small bytes), (u32_small (heap_base h)),
      (u32_small (heap_size h - bytes)) by lia.
    destruct (Z.ltb_spec (heap_size h) bytes); [lia|].
    split; [reflexivity|].
    match goal with
    | |- context [heap_at (system (set_heap System cpu ?x ?s)) cpu] =>
        pose proof (heap_at_set_heap_eq System cpu x s) as Hx
    end.
    cbn [class_heaps] in Hx. rewrite Hx; [reflexivity|].
    destruct st; cbn in *. now rewrite length_insert.
Qed.

End SystemHeap.

(** ** Single blocks: the exact round trip and the hint *)

Lemma map_at_set_map_ne (h : mm_heap) (i k : Z) (m : block_map) :
  Z.to_nat k <> Z.to_nat i -> map_at (set_map i m h) k = map_at h k.
Proof.
  intros Hne. unfold map_at, set_map. cbn.
  now rewrite list_lookup_insert_ne by congruence.
Qed.

Lemma map_at_set_map_cases (h : mm_heap) (i k : Z) (m : block_map) :
  map_at (set_map i m h) k = m \/ map_at (set_map i m h) k = map_at h k.
Proof.
  destruct (decide (Z.to_nat k = Z.to_nat i)) as [Heq|Hne].
  - unfold map_at, set_map. cbn. rewrite Heq.
    destruct (decide (Z.to_nat i < length (heap_map h))%nat).
    + left. now rewrite list_lookup_insert_eq.
    + right. now rewrite list_insert_ge by lia.
  - right. now apply map_at_set_map_ne.
Qed.

Lemma hdr_at_lookup (blk : list block_hdr) (i : Z) :
  0 <= i < Z.of_nat (length blk) -> blk !! Z.to_nat i = Some (hdr_at blk i).
Proof.
  intros Hi. unfold hdr_at.
  destruct (lookup_lt_is_Some_2 blk (Z.to_nat i)) as [x Hx]; [lia|].
  now rewrite Hx.
Qed.

Section SingleBlock.
Context `{Platform}.

Lemma free_loop_keeps_below (n : nat) : forall i m inf j,
  0 <= j < i ->
  hdr_at (block (fst (free_loop n i m inf))) j = hdr_at (block m) j.
Proof.
  induction n as [|n IH]; intros i m inf j Hj; [reflexivity|].
  cbn [free_loop]. rewrite IH by lia. cbn [block].
  apply hdr_at_insert_ne; lia.
Qed.

(** X13.  On a well-formed heap, when the header at the hint is free,
    allocating a single block and freeing the pointer returned gives back
    the heap descriptor exactly as it was: headers, [free_count], the
    hint and the byte counters. *)
Theorem alloc_block_free_identity (h : mm_heap) (L : nat) (m : block_map)
  (mu : memory) :
  heap_ok h ->
  heap_map h !! L = Some m ->
  first_free m < map_count m ->
  hdr_at (block m) (first_free m) = mk_hdr 0 0 ->
  exists mu',
    free_block_at (fst (alloc_block h (Z.of_nat L)))
                  (snd (alloc_block h (Z.of_nat L))) mu = Done (h, mu').
Proof.
  intros Hok Hlk Hff Hfree.
  pose proof Hok as (Hblocks & Hmaps & Hlay & Hu & Hf).
  pose proof (Hmaps L m Hlk) as (Hbs & Hb & Hend & Hlen & Hcb & Hff0 & Hfc).
  unfold alloc_block. rewrite (map_at_lookup h L m Hlk).
  cbv zeta. cbn [fst snd].
  set (blk' := <[Z.to_nat (first_free m) := mk_hdr 1 1]> (block m)).
  set (ff' := match scan_up (fun i => hdr_used (hdr_at blk' i) =? 0)
                            (first_free m)
                            (Z.to_nat (map_count m - first_free m)) with
              | Some i => i
              | None => first_free m
              end).
  assert (Hff' : first_free m <= ff').
  { unfold ff'. destruct (scan_up _ _ _) as [i|] eqn:Hs; [|lia].
    apply scan_up_Some in Hs. lia. }
  match goal with
  | |- context [set_info ?inf (set_map _ ?m' h)] =>
      destruct (free_after_alloc h L m m' inf mu Hok Hlk eq_refl eq_refl
                  eq_refl Hff) as [mu' Heq]
  end.
  exists mu'. rewrite Heq. f_equal. f_equal.
  cbn [block]. unfold blk'.
  rewrite hdr_at_insert_eq by lia.
  change (Z.to_nat (hdr_size (mk_hdr 1 1))) with 1%nat.
  cbn [free_loop fst snd block_size free_count map_count first_free
       block map_base info_used info_free].
  rewrite list_insert_insert_eq.
  rewrite (list_insert_id (block m))
    by (rewrite hdr_at_lookup by lia; now rewrite Hfree).
  rewrite uc_sub_add by exact Hfc.
  rewrite heap_info_restored by trivial.
  assert (Hm : (if first_free m <? ff'
                then set_first_free (first_free m)
                       (mk_map (block_size m) (map_count m) (free_count m)
                               ff' (block m) (map_base m))
                else mk_map (block_size m) (map_count m) (free_count m) ff'
                            (block m) (map_base m)) = m).
  { destruct (Z.ltb_spec (first_free m) ff').
    - now destruct m.
    - assert (ff' = first_free m) as -> by lia. now destruct m. }
  rewrite Hm. destruct h as [b ms hb hs hc hi]. unfold set_info, set_map.
  cbn in *. f_equal. rewrite list_insert_insert_eq, Nat2Z.id.
  now apply list_insert_id.
Qed.

(** X14.  [alloc_block] keeps the hint a lower bound of the free blocks:
    if every header below the hint was in use, it is so afterwards; the
    hint never moves down; when it moves it lands on a free header; and
    when it stays, no header of the map is free any more. *)
Theorem alloc_block_hint (h : mm_heap) (L : nat) (m : block_map) :
  heap_map h !! L = Some m ->
  0 <= first_free m < Z.of_nat (length (block m)) ->
  below_hint_used m ->
  below_hint_used (map_at (snd (alloc_block h (Z.of_nat L))) (Z.of_nat L))
  /\ first_free m
     <= first_free (map_at (snd (alloc_block h (Z.of_nat L))) (Z.of_nat L))
  /\ (first_free (map_at (snd (alloc_block h (Z.of_nat L))) (Z.of_nat L))
      <> first_free m ->
      hdr_used
        (hdr_at (block (map_at (snd (alloc_block h (Z.of_nat L)))
                               (Z.of_nat L)))
                (first_free (map_at (snd (alloc_block h (Z.of_nat L)))
                                    (Z.of_nat L)))) = 0)
  /\ (first_free (map_at (snd (alloc_block h (Z.of_nat L))) (Z.of_nat L))
      = first_free m ->
      forall j, 0 <= j < map_count m ->
        hdr_used
          (hdr_at (block (map_at (snd (alloc_block h (Z.of_nat L)))
                                 (Z.of_nat L))) j) <> 0).
Proof.
  intros Hlk Hff Hbelow.
  assert (HL : (L < length (heap_map h))%nat)
    by (apply lookup_lt_is_Some; eauto).
  unfold alloc_block. rewrite (map_at_lookup h L m Hlk).
  cbv zeta. cbn [snd].
  rewrite map_at_set_info, map_at_set_map_eq by exact HL.
  cbn [first_free block].
  set (blk' := <[Z.to_nat (first_free m) := mk_hdr 1 1]> (block m)).
  assert (Hold : forall j, 0 <= j < first_free m ->
                           hdr_used (hdr_at blk' j) <> 0).
  { intros j Hj. unfold blk'. rewrite hdr_at_insert_ne by lia.
    now apply Hbelow. }
  assert (Hhead : hdr_used (hdr_at blk' (first_free m)) <> 0).
  { unfold blk'. rewrite hdr_at_insert_eq by lia. discriminate. }
  destruct (scan_up _ (first_free m) _) as [i|] eqn:Hs.
  - apply scan_up_Some in Hs as (Hr & Hi & Hlow).
    apply Z.eqb_eq in Hi.
    split; [|split; [lia|split]].
    + intros j Hj. unfold below_hint_used in *. cbn [first_free block] in *.
      destruct (Z.lt_ge_cases j (first_free m)); [now apply Hold|].
      specialize (Hlow j ltac:(lia)). now apply Z.eqb_neq in Hlow.
    + intros _. exact Hi.
    + intros -> j Hj. congruence.
  - rewrite scan_up_None in Hs.
    split; [|split; [lia|split]].
    + intros j Hj. cbn [first_free block] in *. now apply Hold.
    + intros Hne. contradiction.
    + intros _ j Hj.
      destruct (Z.lt_ge_cases j (first_free m)); [now apply Hold|].
      specialize (Hs j ltac:(lia)). now apply Z.eqb_neq in Hs.
Qed.

(** X15.  [free_block] keeps the hint a lower bound as well: if in every
    map of the heap all headers below the hint are in use, the same holds
    of the heap a free returns, whichever blocks it cleared. *)
Theorem free_block_at_keeps_hint_bound (ptr : Z) (h h' : mm_heap)
  (mu mu' : memory) :
  (forall k, below_hint_used (map_at h k)) ->
  free_block_at ptr h mu = Done (h', mu') ->
  forall k, below_hint_used (map_at h' k).
Proof.
  intros Hall. unfold free_block_at.
  destruct (scan_up _ 0 (Z.to_nat (heap_blocks h))) as [i|];
    [|intros [= <- _]; exact Hall].
  cbv zeta. destruct (negb _); [discriminate|].
  set (b := u32 (ptr - map_base (map_at h i)) / block_size (map_at h i)).
  pose proof (free_loop_shape
                (Z.to_nat (hdr_size (hdr_at (block (map_at h i)) b))) b
                (map_at h i) (heap_info h)) as (_ & _ & _ & Hff & _).
  pose proof (fun j => free_loop_keeps_below
                (Z.to_nat (hdr_size (hdr_at (block (map_at h i)) b))) b
                (map_at h i) (heap_info h) j) as Hkeep.
  destruct (free_loop _ b (map_at h i) (heap_info h)) as [m1 inf].
  cbn [fst snd] in *.
  intros Heq.
  apply (f_equal (fun o => match o with
                           | Done (x, _) => x
                           | Fatal => h
                           end)) in Heq.
  cbv beta iota in Heq. subst h'. intros k.
  rewrite map_at_set_info.
  destruct (map_at_set_map_cases h i k
              (if b <? first_free m1 then set_first_free b m1 else m1))
    as [-> | ->]; [|apply Hall].
  intros j Hj. specialize (Hall i).
  destruct (Z.ltb_spec b (first_free m1)); cbn [first_free block] in *.
  - change (block (set_first_free b m1)) with (block m1).
    change (first_free (set_first_free b m1)) with b in Hj.
    rewrite Hkeep by lia. apply Hall. lia.
  - rewrite Hkeep by lia. apply Hall. lia.
Qed.

End SingleBlock.

(** ** First fit, spans and the buffer allocator *)

Lemma mark_used_out (n : nat) : forall blk i j,
  0 <= i -> 0 <= j -> j < i \/ i + Z.of_nat n <= j ->
  hdr_at (mark_used blk i n) j = hdr_at blk j.
Proof.
  induction n as [|n IH]; intros blk i j Hi Hj Hout; [reflexivity|].
  cbn [mark_used]. rewrite IH by lia.
  unfold hdr_at. now rewrite list_lookup_alter_ne by lia.
Qed.

Lemma mark_used_in (n : nat) : forall blk i j,
  0 <= i <= j -> j < i + Z.of_nat n -> j < Z.of_nat (length blk) ->
  hdr_used (hdr_at (mark_used blk i n) j) = 1.
Proof.
  induction n as [|n IH]; intros blk i j Hi Hj Hlen; [lia|].
  cbn [mark_used]. destruct (Z.eq_dec j i) as [->|Hne].
  - rewrite mark_used_out by lia. now rewrite hdr_at_alter_eq by lia.
  - apply IH; try lia. now rewrite length_alter.
Qed.

Section FirstFit.
Context `{Platform}.

Lemma map_bounded_hint (m : block_map) :
  map_bounded m = true -> free_count m <> 0 ->
  0 <= first_free m < Z.of_nat (length (block m)).
Proof.
  unfold map_bounded. rewrite !andb_true_iff, orb_true_iff.
  intros ((((_ & Hlen) & Hff) & Hfc) & _) Hne.
  apply Z.eqb_eq in Hlen. apply Z.leb_le in Hff.
  destruct Hfc as [Hz|Hlt]; [apply Z.eqb_eq in Hz; contradiction|].
  apply Z.ltb_lt in Hlt. lia.
Qed.

Lemma heap_bounded_map (h : mm_heap) (i : Z) :
  heap_bounded h = true -> 0 <= i < heap_blocks h ->
  (Z.to_nat i < length (heap_map h))%nat
  /\ map_bounded (map_at h i) = true.
Proof.
  unfold heap_bounded. rewrite !andb_true_iff.
  intros [[[[Hlen Hall] _] _] _] Hi.
  apply Z.eqb_eq in Hlen.
  assert (Hlt : (Z.to_nat i < length (heap_map h))%nat) by lia.
  split; [exact Hlt|].
  destruct (lookup_lt_is_Some_2 _ _ Hlt) as [m Hm].
  unfold map_at. rewrite Hm. cbn [default].
  rewrite forallb_forall in Hall. apply Hall.
  apply list_elem_of_In. eapply list_elem_of_lookup_2. exact Hm.
Qed.

(** X16.  On a heap whose header stores stay inside the header arrays
    ([heap_bounded]), [get_ptr_from_heap] is first fit over the maps in
    index order: it serves the request from the first map whose blocks are
    large enough and that counts a free block, takes the header at the
    hint of that map and touches no other map; when no map qualifies it
    returns null and leaves the heap as it is. *)
Theorem get_ptr_from_heap_first_fit (h : mm_heap) (zone caps bytes : Z) :
  heap_bounded h = true ->
  ((forall k, 0 <= k < heap_blocks h ->
              block_size (map_at h k) < bytes \/ free_count (map_at h k) = 0)
   -> get_ptr_from_heap h zone caps bytes = (0, h))
  /\ (forall i,
        0 <= i < heap_blocks h ->
        bytes <= block_size (map_at h i) ->
        free_count (map_at h i) <> 0 ->
        (forall k, 0 <= k < i ->
                   block_size (map_at h k) < bytes
                   \/ free_count (map_at h k) = 0) ->
        get_ptr_from_heap h zone caps bytes
        = (zone_alias zone (next_slot (map_at h i)), snd (alloc_block h i))
        /\ hdr_at (block (map_at (snd (get_ptr_from_heap h zone caps bytes))
                                 i))
                  (first_free (map_at h i))
           = mk_hdr 1 1
        /\ forall k, Z.to_nat k <> Z.to_nat i ->
             map_at (snd (get_ptr_from_heap h zone caps bytes)) k
             = map_at h k).
Proof.
  intros Hbound.
  assert (Hp : forall k,
            (negb (block_size (map_at h k) <? bytes)
             && negb (free_count (map_at h k) =? 0) = false)
            <-> (block_size (map_at h k) < bytes
                 \/ free_count (map_at h k) = 0)).
  { intros k. destruct (Z.ltb_spec (block_size (map_at h k)) bytes),
      (Z.eqb_spec (free_count (map_at h k)) 0); cbn; split; intros;
      try discriminate; try lia; tauto. }
  split.
  - intros Hnone. unfold get_ptr_from_heap.
    assert (Hs : scan_up (fun i => negb (block_size (map_at h i) <? bytes)
                                   && negb (free_count (map_at h i) =? 0))
                         0 (Z.to_nat (heap_blocks h)) = None).
    { apply scan_up_None. intros k Hk. apply Hp, Hnone. lia. }
    now rewrite Hs.
  - intros i Hi Hbs Hfc Hlow.
    assert (Hs : scan_up (fun i => negb (block_size (map_at h i) <? bytes)
                                   && negb (free_count (map_at h i) =? 0))
                         0 (Z.to_nat (heap_blocks h)) = Some i).
    { apply scan_up_first; [lia| |].
      - destruct (Z.ltb_spec (block_size (map_at h i)) bytes); [lia|].
        destruct (Z.eqb_spec (free_count (map_at h i)) 0); [lia|].
        reflexivity.
      - intros k Hk. apply Hp, Hlow. lia. }
    destruct (heap_bounded_map h i Hbound Hi) as [Hlt Hmap].
    pose proof (map_bounded_hint _ Hmap Hfc) as Hhint.
    unfold get_ptr_from_heap. rewrite Hs.
    unfold alloc_block at 1 3 4. cbv zeta. split; [reflexivity|].
    cbn [snd]. split.
    + rewrite map_at_set_info.
      assert (Heq : forall m', map_at (set_map i m' h) i = m').
      { intros m'. unfold map_at, set_map. cbn [heap_map].
        now rewrite list_lookup_insert_eq. }
      rewrite Heq. cbn [block]. now apply hdr_at_insert_eq.
    + intros k Hk. rewrite map_at_set_info. now apply map_at_set_map_ne.
Qed.

Lemma span_fits (h h' : mm_heap) (L : nat) (m : block_map)
  (bytes p : Z) :
  heap_map h !! L = Some m ->
  map_ok m ->
  0 < bytes ->
  alloc_cont_blocks h (Z.of_nat L) bytes = (p, h') ->
  p <> 0 ->
  p = map_base m + first_free m * block_size m
  /\ hdr_size (hdr_at (block (map_at h' (Z.of_nat L))) (first_free m))
     = span_blocks bytes (block_size m)
  /\ bytes <= span_blocks bytes (block_size m) * block_size m
     < bytes + block_size m
  /\ first_free m + span_blocks bytes (block_size m) <= map_count m
  /\ p + bytes <= map_end m
  /\ first_free (map_at h' (Z.of_nat L))
     = first_free m + span_blocks bytes (block_size m).
Proof.
  intros Hlk (Hbs & Hb & Hend & Hlen & Hcb & Hff0 & Hfc) Hbytes.
  assert (HL : (L < length (heap_map h))%nat)
    by (apply lookup_lt_is_Some; eauto).
  pose proof (span_blocks_pos bytes (block_size m) Hbytes Hbs) as Hpos.
  pose proof (count_unused_le (block m)
                (Z.to_nat (map_count m - first_free m)) (first_free m))
    as Hle.
  assert (Hceil : bytes <= span_blocks bytes (block_size m) * block_size m
                  < bytes + block_size m).
  { unfold span_blocks.
    pose proof (Z.div_mod bytes (block_size m) ltac:(lia)) as Hdm.
    pose proof (Z.mod_pos_bound bytes (block_size m) Hbs) as Hmod.
    destruct (Z.eqb_spec (bytes mod block_size m) 0); nia. }
  unfold alloc_cont_blocks. rewrite (map_at_lookup h L m Hlk). cbv zeta.
  destruct (Z.ltb_spec (map_count m) (span_blocks bytes (block_size m)));
    [intros [= <- _]; contradiction|].
  destruct (Z.ltb_spec
              (count_unused (block m) (first_free m)
                 (Z.to_nat (map_count m - first_free m)))
              (span_blocks bytes (block_size m)));
    [intros [= <- _]; contradiction|].
  cbn [orb]. intros Heq Hp.
  pose proof Heq as Hptr. apply (f_equal fst) in Hptr. cbn [fst] in Hptr.
  apply (f_equal snd) in Heq. cbn [snd] in Heq. subst h'.
  unfold map_end in *.
  rewrite u32_small in Hptr by nia. subst p.
  rewrite map_at_set_info, map_at_set_map_eq by exact HL.
  cbn [block first_free].
  rewrite mark_used_size, hdr_at_alter_eq by lia.
  cbn [set_hdr_size hdr_size].
  rewrite !uc_small by lia.
  repeat split; try lia; nia.
Qed.

(** X17.  A span that [alloc_cont_blocks] hands out (a non-null pointer,
    for a request of at least one byte on a well-formed map) lies inside
    the map: it starts at the block the hint named, the count recorded in
    the head header is the least number of blocks that holds the request,
    and the span ends at or before the last block; the hint moves to the
    block after the span. *)
Theorem span_inside_map (h h' : mm_heap) (L : nat) (m : block_map)
  (bytes p : Z) :
  heap_map h !! L = Some m ->
  map_ok m ->
  0 < bytes ->
  alloc_cont_blocks h (Z.of_nat L) bytes = (p, h') ->
  p <> 0 ->
  p = map_base m + first_free m * block_size m
  /\ hdr_size (hdr_at (block (map_at h' (Z.of_nat L))) (first_free m))
     = span_blocks bytes (block_size m)
  /\ bytes <= span_blocks bytes (block_size m) * block_size m
     < bytes + block_size m
  /\ first_free m + span_blocks bytes (block_size m) <= map_count m
  /\ p + bytes <= map_end m
  /\ first_free (map_at h' (Z.of_nat L))
     = first_free m + span_blocks bytes (block_size m).
Proof. exact (span_fits h h' L m bytes p). Qed.

(** X18.  When the hint is at block 0, a span is marked in full: every
    header of the span has [used] 1 afterwards, and every header past the
    span is as it was. *)
Theorem span_from_block_zero_marked (h h' : mm_heap) (L : nat)
  (m : block_map) (bytes p : Z) :
  heap_map h !! L = Some m ->
  map_ok m ->
  0 < bytes ->
  first_free m = 0 ->
  alloc_cont_blocks h (Z.of_nat L) bytes = (p, h') ->
  p <> 0 ->
  (forall j, 0 <= j < span_blocks bytes (block_size m) ->
             hdr_used (hdr_at (block (map_at h' (Z.of_nat L))) j) = 1)
  /\ (forall j, span_blocks bytes (block_size m) <= j ->
                hdr_at (block (map_at h' (Z.of_nat L))) j
                = hdr_at (block m) j).
Proof.
  intros Hlk Hok Hbytes Hz Heq Hp.
  pose proof Hok as (Hbs & Hb & Hend & Hlen & Hcb & Hff0 & Hfc).
  destruct (span_fits h h' L m bytes p Hlk Hok Hbytes Heq Hp)
    as (_ & _ & _ & Hfit & _).
  assert (HL : (L < length (heap_map h))%nat)
    by (apply lookup_lt_is_Some; eauto).
  pose proof (span_blocks_pos bytes (block_size m) Hbytes Hbs) as Hpos.
  revert Heq. unfold alloc_cont_blocks.
  rewrite (map_at_lookup h L m Hlk). cbv zeta.
  destruct (_ || _); [intros [= <- _]; contradiction|].
  intros Heq. apply (f_equal snd) in Heq. cbn [snd] in Heq. subst h'.
  rewrite map_at_set_info, map_at_set_map_eq by exact HL.
  cbn [block]. rewrite Hz in *. rewrite Z.sub_0_r. split.
  - intros j Hj. apply mark_used_in; try lia.
    rewrite length_alter. lia.
  - intros j Hj. rewrite mark_used_out by lia.
    unfold hdr_at. now rewrite list_lookup_alter_ne by lia.
Qed.

(** X19.  With Buffer heaps whose header stores stay inside the header
    arrays ([heap_bounded]), the buffer allocator works on the Buffer
    heaps only: whatever it returns, the System, System-Runtime and
    Runtime arrays are as before; and when no Buffer heap has the
    capabilities asked for, it returns null and the whole registry is as
    before. *)
Theorem balloc_confined (zone caps bytes : Z) (st : mm) :
  forallb heap_bounded (buffer st) = true ->
  system (snd (_balloc zone caps bytes st)) = system st
  /\ system_runtime (snd (_balloc zone caps bytes st)) = system_runtime st
  /\ runtime (snd (_balloc zone caps bytes st)) = runtime st
  /\ (no_match (buffer st) caps -> _balloc zone caps bytes st = (0, st)).
Proof.
  intros _.
  assert (Hloop : forall fuel i st0,
            system (snd (balloc_loop fuel i zone caps bytes st0)) = system st0
            /\ system_runtime (snd (balloc_loop fuel i zone caps bytes st0))
               = system_runtime st0
            /\ runtime (snd (balloc_loop fuel i zone caps bytes st0))
               = runtime st0).
  { induction fuel as [|fuel IH]; intros i st0; cbn [balloc_loop];
      [auto|]. cbv zeta.
    destruct (_ <? _); [|auto].
    destruct (get_heap_from_caps _ _ caps) as [j|]; [|auto].
    destruct (alloc_heap_buffer _ zone caps bytes (mem st0))
      as [[q h'] mu].
    destruct (is_null q); [|auto].
    destruct (IH (i + j + 1)
                (set_mem mu (set_heap Buffer (i + j) h' st0)))
      as (H1 & H2 & H3).
    rewrite H1, H2, H3. auto. }
  unfold _balloc, _balloc_unlocked.
  destruct (Hloop (length (buffer st)) 0 st) as (H1 & H2 & H3).
  repeat split; trivial.
  intros Hno. apply get_heap_from_caps_None in Hno.
  generalize (length (buffer st)). intros [|n]; [reflexivity|].
  cbn [balloc_loop]. cbv zeta.
  destruct (_ <? _); [|reflexivity].
  change (drop (Z.to_nat 0) (buffer st)) with (buffer st).
  rewrite Z.sub_0_r, Hno. reflexivity.
Qed.

End FirstFit.

(** ** Boot-time layout and poisoning *)

Lemma maps_bytes_nonneg (ms : list block_map) :
  (forall m, m ∈ ms -> 0 <= block_size m * map_count m) ->
  0 <= maps_bytes ms.
Proof.
  induction ms as [|m ms IH]; intros Hnn; cbn; [lia|].
  assert (0 <= block_size m * map_count m) by (apply Hnn; left).
  assert (0 <= maps_bytes ms)
    by (apply IH; intros m0 Hm0; apply Hnn; now right).
  unfold maps_bytes in *. lia.
Qed.

Lemma layout_maps_closed (ms : list block_map) : forall b j m0,
  ms !! j = Some m0 ->
  (forall m, m ∈ ms -> 0 <= block_size m * map_count m) ->
  0 <= b -> b + maps_bytes ms < 2 ^ 32 ->
  layout_maps b ms !! j
  = Some (set_map_base (b + maps_bytes (take j ms)) m0).
Proof.
  induction ms as [|m ms IH]; intros b j m0 Hl Hnn Hb Hfit;
    [discriminate|].
  assert (Hm : 0 <= block_size m * map_count m) by (apply Hnn; left).
  assert (Hnn' : forall m1, m1 ∈ ms -> 0 <= block_size m1 * map_count m1)
    by (intros m1 Hm1; apply Hnn; now right).
  pose proof (maps_bytes_nonneg ms Hnn') as Hrest.
  cbn [maps_bytes foldr] in Hfit. fold (maps_bytes ms) in Hfit.
  destruct j as [|j]; cbn in Hl |- *.
  - injection Hl as <-. now rewrite Z.add_0_r.
  - rewrite u32_small by lia. rewrite (IH _ j m0 Hl Hnn') by lia.
    fold (maps_bytes (take j ms)). do 2 f_equal. lia.
Qed.

Section Boot.
Context `{Platform}.

(** The loop of [init_heap_map] has laid out the maps before index
    [length pre], of which [c] is the last, and lays out the rest. *)
Lemma init_maps_rest (rest : list block_map) : forall pre c,
  last pre = Some c ->
  init_maps (length rest) (Z.of_nat (length pre)) (pre ++ rest)
  = pre ++ layout_maps (u32 (map_base c + block_size c * map_count c)) rest.
Proof.
  induction rest as [|m rest IH]; intros pre c Hlast.
  - cbn. reflexivity.
  - cbn [length init_maps layout_maps]. cbv zeta.
    assert (Hpos : (0 < length pre)%nat).
    { destruct pre; [discriminate|cbn; lia]. }
    assert (Hcur : (pre ++ m :: rest)
                   !! Z.to_nat (Z.of_nat (length pre) - 1) = Some c).
    { rewrite lookup_app_l by lia. rewrite last_lookup in Hlast.
      rewrite <- Hlast. f_equal. lia. }
    rewrite Hcur. cbn [default].
    rewrite Nat2Z.id.
    replace (alter _ (length pre) (pre ++ m :: rest))
      with ((pre ++ [set_map_base
                       (u32 (map_base c + block_size c * map_count c)) m])
            ++ rest).
    2:{ rewrite <- (Nat.add_0_r (length pre)) at 1.
        rewrite alter_app_r. now rewrite <- app_assoc. }
    replace (Z.of_nat (length pre) + 1)
      with (Z.of_nat (length (pre ++ [set_map_base
                       (u32 (map_base c + block_size c * map_count c)) m])))
      by (rewrite length_app; cbn; lia).
    rewrite (IH _ (set_map_base
                     (u32 (map_base c + block_size c * map_count c)) m))
      by (now rewrite last_snoc).
    now rewrite <- app_assoc.
Qed.

(** With as many maps as [blocks] says, [init_heap_map] lays out all of
    them. *)
Lemma init_maps_layout (h : mm_heap) :
  heap_blocks h = Z.of_nat (length (heap_map h)) ->
  init_maps (Z.to_nat (heap_blocks h - 1)) 1
            (alter (set_map_base (heap_base h)) 0%nat (heap_map h))
  = layout_maps (heap_base h) (heap_map h).
Proof.
  intros Hlen. rewrite Hlen.
  destruct (heap_map h) as [|m rest]; [reflexivity|].
  cbn [alter list_alter length layout_maps].
  replace (Z.to_nat (Z.of_nat (S (length rest)) - 1)) with (length rest)
    by lia.
  exact (init_maps_rest rest [set_map_base (heap_base h) m] _ eq_refl).
Qed.

Lemma registry_declared_heap (st : mm) (c : heap_class) (k : nat)
  (h : mm_heap) :
  registry_declared st = true -> c <> System ->
  class_heaps c st !! k = Some h ->
  heap_blocks h = Z.of_nat (length (heap_map h)).
Proof.
  unfold registry_declared. rewrite !andb_true_iff.
  intros [[Hsr Hrt] Hbuf] Hc Hk.
  assert (Hall : forallb heap_declared (class_heaps c st) = true)
    by (destruct c; trivial; contradiction).
  rewrite forallb_forall in Hall.
  assert (Hh : heap_declared h = true).
  { apply Hall, list_elem_of_In. eapply list_elem_of_lookup_2. exact Hk. }
  unfold heap_declared in Hh. apply andb_true_iff in Hh as [_ Hh].
  now apply Z.eqb_eq in Hh.
Qed.

(** X20.  In a registry every block heap of which declares at least one
    map and as many as its array holds ([registry_declared]): [init_heap]
    panics when the first System heap does not start at the linker symbol.
    Otherwise it returns, the System heaps are as they were, and in every
    block heap that fits the address space map [j] is the map declared
    with its base set to the heap base plus the bytes of the maps before
    it: the maps tile the heap from its base on, in order, without gap or
    overlap. *)
Theorem init_heap_layout (start : Z) (st : mm) :
  registry_declared st = true ->
  (heap_base (heap_at (system st) 0) <> start -> init_heap start st = Fatal)
  /\ (heap_base (heap_at (system st) 0) = start ->
      exists st',
        init_heap start st = Done st'
        /\ system st' = system st
        /\ forall c k h j m0,
             c <> System ->
             class_heaps c st !! k = Some h ->
             heap_map h !! j = Some m0 ->
             (forall m, m ∈ heap_map h -> 0 <= block_size m * map_count m) ->
             0 <= heap_base h ->
             heap_base h + maps_bytes (heap_map h) < 2 ^ 32 ->
             exists h',
               class_heaps c st' !! k = Some h'
               /\ heap_base h' = heap_base h
               /\ heap_map h' !! j
                  = Some (set_map_base
                            (heap_base h + maps_bytes (take j (heap_map h)))
                            m0)).
Proof.
  intros Hdecl. unfold init_heap. split.
  - intros Hne. destruct (Z.eqb_spec (heap_base (heap_at (system st) 0))
                                     start); [contradiction|reflexivity].
  - intros Heq. rewrite Heq, Z.eqb_refl. cbn [negb].
    eexists. split; [reflexivity|]. split.
    + now destruct CONFIG_DEBUG_BLOCK_FREE.
    + intros c k h j m0 Hc Hk Hj Hnn Hb Hfit.
      pose proof (registry_declared_heap st c k h Hdecl Hc Hk) as Hlen.
      exists (mk_heap (heap_blocks h)
                      (layout_maps (heap_base h) (heap_map h))
                      (heap_base h) (heap_size h) (heap_caps h)
                      (heap_info h)).
      split; [|split; [reflexivity|]].
      * assert (Hcls : forall s,
                  class_heaps c
                    (if CONFIG_DEBUG_BLOCK_FREE then set_mem s
                       (mk_mm (system st) (init_heap_map (system_runtime st))
                          (init_heap_map (runtime st))
                          (init_heap_map (buffer st))
                          (heap_trace_updated st) (mem st))
                     else mk_mm (system st)
                            (init_heap_map (system_runtime st))
                            (init_heap_map (runtime st))
                            (init_heap_map (buffer st))
                            (heap_trace_updated st) (mem st))
                  = init_heap_map (class_heaps c st)).
        { intros s. destruct CONFIG_DEBUG_BLOCK_FREE, c; trivial;
            contradiction. }
        rewrite Hcls. unfold init_heap_map.
        rewrite list_lookup_fmap, Hk. cbn [fmap option_fmap option_map].
        now rewrite init_maps_layout.
      * cbn [heap_map]. now apply layout_maps_closed.
Qed.

Lemma pattern_maps_keeps (h : mm_heap) (pattern a : Z) (n : nat) :
  forall j mu,
    mu a = pattern -> pattern_maps h j n pattern mu a = pattern.
Proof.
  induction n as [|n IH]; intros j mu Hmu; [exact Hmu|].
  cbn [pattern_maps]. apply IH. rewrite memset_spec.
  now destruct (_ && _).
Qed.

Lemma pattern_maps_hits (h : mm_heap) (pattern a : Z) (n : nat) :
  forall j k mu,
    j <= k < j + Z.of_nat n ->
    in_range (map_base (map_at h k))
             (map_count (map_at h k) * block_size (map_at h k)) a ->
    pattern_maps h j n pattern mu a = pattern.
Proof.
  induction n as [|n IH]; intros j k mu Hk Ha; [lia|].
  cbn [pattern_maps]. destruct (Z.eq_dec k j) as [->|Hne].
  - apply pattern_maps_keeps. unfold in_range in Ha.
    rewrite memset_spec, Z2Nat.id by lia.
    destruct (Z.leb_spec (map_base (map_at h j)) a),
      (Z.ltb_spec a (map_base (map_at h j)
                     + map_count (map_at h j) * block_size (map_at h j)));
      trivial; lia.
  - apply (IH (j + 1) k); trivial. lia.
Qed.

Lemma pattern_heaps_keeps (hs : list mm_heap) (pattern a : Z) (n : nat) :
  forall i mu,
    mu a = pattern -> pattern_heaps hs i n pattern mu a = pattern.
Proof.
  induction n as [|n IH]; intros i mu Hmu; [exact Hmu|].
  cbn [pattern_heaps]. apply IH. now apply pattern_maps_keeps.
Qed.

(** X21.  After [write_pattern] over an array of heaps, every byte of
    every block of every map of every heap of the array holds the
    pattern. *)
Theorem write_pattern_fills (hs : list mm_heap) (heap_depth pattern : Z)
  (mu : memory) (i k a : Z) :
  0 <= i < heap_depth ->
  0 <= k < heap_blocks (heap_at hs i) ->
  in_range (map_base (map_at (heap_at hs i) k))
           (map_count (map_at (heap_at hs i) k)
            * block_size (map_at (heap_at hs i) k)) a ->
  write_pattern hs heap_depth pattern mu a = pattern.
Proof.
  intros Hi Hk Ha. unfold write_pattern.
  assert (Hgen : forall n i0 mu0,
            i0 <= i < i0 + Z.of_nat n ->
            pattern_heaps hs i0 n pattern mu0 a = pattern).
  { induction n as [|n IH]; intros i0 mu0 Hr; [lia|].
    cbn [pattern_heaps]. destruct (Z.eq_dec i i0) as [<-|Hne].
    - apply pattern_heaps_keeps.
      apply (pattern_maps_hits (heap_at hs i) pattern a _ 0 k); trivial.
      lia.
    - apply IH. lia. }
  apply Hgen. lia.
Qed.

(** X22.  The heap trace of [alloc_trace_runtime_heap] and
    [alloc_trace_buffer_heap] never leaves its loop when a heap of the
    array has the capabilities asked for: each turn finds the same heap
    again.  It returns, having found nothing, only when no heap
    matches. *)
Theorem alloc_trace_heap_loops (caps : Z) (st : mm) :
  (forall i, first_match (runtime st) caps i ->
             forall fuel, alloc_trace_runtime_heap fuel caps st = None)
  /\ (no_match (runtime st) caps ->
      forall fuel, alloc_trace_runtime_heap (S fuel) caps st = Some 0)
  /\ (forall i, first_match (buffer st) caps i ->
                forall fuel, alloc_trace_buffer_heap fuel caps st = None)
  /\ (no_match (buffer st) caps ->
      forall fuel, alloc_trace_buffer_heap (S fuel) caps st = Some 0).
Proof.
  assert (Hloop : forall hs i, first_match hs caps i ->
            forall fuel count, trace_heap_loop fuel hs caps count = None).
  { intros hs i Hi. apply get_heap_from_caps_Some in Hi.
    induction fuel as [|fuel IH]; intros count; cbn; [reflexivity|].
    now rewrite Hi. }
  assert (Hout : forall hs, no_match hs caps ->
            forall fuel, trace_heap_loop (S fuel) hs caps 0 = Some 0).
  { intros hs Hno fuel. apply get_heap_from_caps_None in Hno.
    cbn. now rewrite Hno. }
  unfold alloc_trace_runtime_heap, alloc_trace_buffer_heap.
  repeat split; eauto.
Qed.

End Boot.

(** ** Realloc and the checked copy *)

Section ReallocCopy.
Context `{Platform}.

Lemma realloc_tail (v : realloc_variant) (ptr zone caps bytes cpu : Z)
  (st st1 : mm) (new_ptr : Z) :
  bytes <> 0 ->
  new_allocation v zone caps bytes cpu st = Done (new_ptr, st1) ->
  reallocate v ptr zone caps bytes cpu st
  = match (if negb (is_null new_ptr)
           then _rfree_unlocked cpu ptr
                  (if negb (is_null new_ptr) && negb (is_null ptr)
                   then set_mem (memcpy_s (mem st1) new_ptr bytes ptr bytes)
                                st1
                   else st1)
           else Done (if negb (is_null new_ptr) && negb (is_null ptr)
                      then set_mem (memcpy_s (mem st1) new_ptr bytes ptr
                                             bytes) st1
                      else st1)) with
    | Done st3 => Done (new_ptr, st3)
    | Fatal => Fatal
    end.
Proof.
  intros Hb Hnew. destruct v; cbn in Hnew |- *.
  - unfold _realloc. destruct (Z.eqb_spec bytes 0); [contradiction|].
    now rewrite Hnew.
  - injection Hnew as Hnew. unfold _brealloc.
    destruct (Z.eqb_spec bytes 0); [contradiction|]. now rewrite Hnew.
Qed.

(** X23.  Provided [memcpy_s] does what its inline form [arch_memcpy_s]
    does: when the block a realloc obtains overlaps or touches the old
    block (the new pointer is within [bytes] of the old one, as for two
    neighbouring blocks of exactly [bytes] bytes, both inside the 32-bit
    address space), the checked copy refuses and its result is not looked
    at: nothing is copied, and the old block is freed all the same. *)
Theorem realloc_neighbour_copies_nothing (v : realloc_variant)
  (ptr zone caps bytes cpu : Z) (st st1 : mm) (new_ptr : Z) :
  memcpy_s_checked ->
  0 < bytes ->
  new_allocation v zone caps bytes cpu st = Done (new_ptr, st1) ->
  0 <= ptr -> 0 <= new_ptr ->
  ptr + bytes < 2 ^ 32 -> new_ptr + bytes < 2 ^ 32 ->
  new_ptr <= ptr + bytes -> ptr <= new_ptr + bytes ->
  reallocate v ptr zone caps bytes cpu st
  = match (if negb (is_null new_ptr) then _rfree_unlocked cpu ptr st1
           else Done st1) with
    | Done st3 => Done (new_ptr, st3)
    | Fatal => Fatal
    end.
Proof.
  intros Hcpy Hb Hnew Hp0 Hn0 Hpe Hne H1 H2.
  rewrite (realloc_tail v ptr zone caps bytes cpu st st1 new_ptr) by
    (trivial; lia).
  rewrite Hcpy, arch_memcpy_s_closed_ranges by lia.
  cbn [snd]. rewrite set_mem_same.
  now destruct (negb (is_null new_ptr) && negb (is_null ptr)).
Qed.

Lemma free_block_at_store (ptr : Z) (h h' : mm_heap) (mu mu' : memory) :
  CONFIG_DEBUG_BLOCK_FREE = false ->
  free_block_at ptr h mu = Done (h', mu') -> mu' = mu.
Proof.
  intros Hd. unfold free_block_at. rewrite Hd.
  destruct (scan_up _ 0 _); [|now intros [= _ <-]].
  cbv zeta. destruct (negb _); [discriminate|].
  destruct (free_loop _ _ _ _). now intros [= _ <-].
Qed.

Lemma rfree_unlocked_store (cpu ptr : Z) (st st' : mm) :
  CONFIG_DEBUG_BLOCK_FREE = false ->
  _rfree_unlocked cpu ptr st = Done st' -> mem st' = mem st.
Proof.
  intros Hd. unfold _rfree_unlocked.
  destruct (is_null ptr); [now intros [= <-]|].
  destruct (in_heap _ _); [discriminate|].
  unfold free_block.
  destruct (get_heap_from_ptr cpu _ st) as [[c k]|];
    [|cbn; now intros [= <-]].
  destruct (free_block_at _ _ _) as [[h' mu]|] eqn:Hat; [|discriminate].
  apply (free_block_at_store _ _ _ _ _ Hd) in Hat. subst mu.
  cbn. now intros [= <-].
Qed.

Lemma malloc_unlocked_store (zone caps bytes cpu : Z) (st st' : mm) (p : Z) :
  CONFIG_DEBUG_BLOCK_FREE = false ->
  _malloc_unlocked zone caps bytes cpu st = Done (p, st') ->
  mem st' = mem st.
Proof.
  intros Hd. unfold _malloc_unlocked. cbv zeta. rewrite Hd.
  assert (Hzone : forall q st1,
            (if Z.land zone RZONE_TYPE_MASK =? RZONE_SYS
             then rmalloc_sys zone caps cpu bytes st
             else if Z.land zone RZONE_TYPE_MASK =? RZONE_SYS_RUNTIME
                  then rmalloc_sys_runtime zone caps cpu bytes st
                  else if Z.land zone RZONE_TYPE_MASK =? RZONE_RUNTIME
                       then Done (rmalloc_runtime zone caps bytes st)
                       else Fatal) = Done (q, st1) ->
            mem st1 = mem st).
  { intros q st1.
    destruct (_ =? RZONE_SYS).
    { unfold rmalloc_sys. destruct (negb _); [discriminate|].
      destruct (_ <? _); [discriminate|].
      intros Heq. result_state Heq st. subst st1. apply mem_set_heap. }
    destruct (_ =? RZONE_SYS_RUNTIME).
    { unfold rmalloc_sys_runtime. destruct (negb _); [discriminate|].
      destruct (get_ptr_from_heap _ _ _ _).
      intros Heq. result_state Heq st. subst st1. apply mem_set_heap. }
    destruct (_ =? RZONE_RUNTIME); [|discriminate].
    unfold rmalloc_runtime.
    destruct (get_heap_from_caps (runtime st) _ caps).
    { destruct (get_ptr_from_heap _ _ _ _).
      intros Heq. result_state Heq st. subst st1. apply mem_set_heap. }
    destruct (get_heap_from_caps (buffer st) _ caps).
    { destruct (get_ptr_from_heap _ _ _ _).
      intros Heq. result_state Heq st. subst st1. apply mem_set_heap. }
    intros Heq. result_state Heq st. now subst st1. }
  destruct (if _ =? RZONE_SYS then _ else _) as [[q st1]|]; [|discriminate].
  cbn. intros [= _ <-]. cbn. now apply (Hzone q).
Qed.

Lemma balloc_loop_store (zone caps bytes : Z) (fuel : nat) : forall i st,
  CONFIG_DEBUG_BLOCK_FREE = false ->
  mem (snd (balloc_loop fuel i zone caps bytes st)) = mem st.
Proof.
  induction fuel as [|fuel IH]; intros i st Hd; cbn [balloc_loop];
    [reflexivity|]. cbv zeta.
  destruct (_ <? _); [|reflexivity].
  destruct (get_heap_from_caps _ _ caps) as [j|]; [|reflexivity].
  assert (Hmu : snd (alloc_heap_buffer (heap_at (buffer st) (i + j)) zone
                       caps bytes (mem st)) = mem st).
  { unfold alloc_heap_buffer. rewrite Hd.
    destruct (match scan_up _ 0 _ with Some _ => _ | None => _ end).
    destruct (if is_null _ then _ else _). reflexivity. }
  destruct (alloc_heap_buffer _ zone caps bytes (mem st)) as [[p h'] mu].
  cbn [snd] in Hmu. subst mu.
  destruct (is_null p).
  - rewrite IH by trivial. cbn. now destruct st.
  - cbn. now destruct st.
Qed.

(** X24.  Provided [memcpy_s] does what its inline form [arch_memcpy_s]
    does, and without the debug fill: a realloc that returns a new block
    lying apart from the old one, both inside the 32-bit address space,
    has copied [bytes] bytes, the new size, from the old pointer on into
    the new block, and has changed no other byte of the store. *)
Theorem realloc_copies_new_size (v : realloc_variant)
  (ptr zone caps bytes cpu : Z) (st st' : mm) (new_ptr : Z) :
  memcpy_s_checked ->
  CONFIG_DEBUG_BLOCK_FREE = false ->
  0 < bytes -> 0 < ptr -> 0 < new_ptr ->
  ptr + bytes < 2 ^ 32 -> new_ptr + bytes < 2 ^ 32 ->
  new_ptr + bytes < ptr \/ ptr + bytes < new_ptr ->
  reallocate v ptr zone caps bytes cpu st = Done (new_ptr, st') ->
  (forall i, 0 <= i < bytes -> mem st' (new_ptr + i) = mem st (ptr + i))
  /\ (forall a, ~ in_range new_ptr bytes a -> mem st' a = mem st a).
Proof.
  intros Hcpy Hd Hb Hp0 Hn0 Hpe Hne Hap Hre.
  assert (Hp : ptr <> 0) by lia. assert (Hn : new_ptr <> 0) by lia.
  assert (Hnew : exists st1,
            new_allocation v zone caps bytes cpu st = Done (new_ptr, st1)
            /\ mem st1 = mem st).
  { destruct v; cbn in Hre |- *.
    - unfold _realloc in Hre.
      destruct (Z.eqb_spec bytes 0); [lia|].
      destruct (_malloc_unlocked zone caps bytes cpu st) as [[q st1]|]
        eqn:Hm; [|discriminate].
      cbn in Hre. destruct (if negb (is_null q) then _ else _);
        [|discriminate].
      cbn in Hre. injection Hre as <- _. exists st1. split; trivial.
      eapply malloc_unlocked_store; eauto.
    - unfold _brealloc in Hre.
      destruct (Z.eqb_spec bytes 0); [lia|].
      pose proof (balloc_loop_store zone caps bytes (length (buffer st)) 0 st
                    Hd) as Hm.
      fold (_balloc_unlocked zone caps bytes st) in Hm.
      destruct (_balloc_unlocked zone caps bytes st) as [q st1].
      destruct (if negb (is_null q) then _ else _); [|discriminate].
      cbn in Hre. injection Hre as <- _. exists st1. split; trivial. }
  destruct Hnew as (st1 & Hnew & Hmem).
  rewrite (realloc_tail v ptr zone caps bytes cpu st st1 new_ptr) in Hre
    by (trivial; lia).
  unfold is_null in Hre.
  destruct (Z.eqb_spec new_ptr 0); [contradiction|].
  destruct (Z.eqb_spec ptr 0); [contradiction|].
  cbn [negb andb] in Hre.
  destruct (_rfree_unlocked cpu ptr _) as [st3|] eqn:Hf; [|discriminate].
  injection Hre as <-.
  apply (rfree_unlocked_store _ _ _ _ Hd) in Hf.
  rewrite Hf. destruct st1; cbn in Hmem |- *. subst.
  rewrite Hcpy, arch_memcpy_s_apart by (trivial; lia). cbn [snd].
  split.
  - intros i Hi. rewrite memcpy_spec, Z2Nat.id by lia.
    destruct (Z.leb_spec new_ptr (new_ptr + i)),
      (Z.ltb_spec (new_ptr + i) (new_ptr + bytes)); try lia.
    cbn [andb]. f_equal. lia.
  - intros a Ha. unfold in_range in Ha.
    rewrite memcpy_spec, Z2Nat.id by lia.
    destruct (Z.leb_spec new_ptr a), (Z.ltb_spec a (new_ptr + bytes));
      trivial; lia.
Qed.

End ReallocCopy.

(** ** Requests that cannot be served, and what each zone touches *)

Section Confinement.
Context `{Platform}.

Lemma cont_scan_oversize (bytes : Z) (n : nat) (h : mm_heap) :
  heap_size h < bytes -> cont_scan n h bytes = (0, h).
Proof.
  intros Hs. induction n as [|n IH]; cbn [cont_scan]; [reflexivity|].
  destruct (Z.ltb_spec (heap_size h) bytes); [|lia]. exact IH.
Qed.

(** X25.  A buffer request larger than the heap and larger than every
    block of it is refused by [alloc_heap_buffer] without a search for a
    span: the result is null, and the heap and the store are as before. *)
Theorem alloc_heap_buffer_oversize (h : mm_heap) (zone caps bytes : Z)
  (mu : memory) :
  heap_size h < bytes ->
  (forall k, 0 <= k < heap_blocks h -> block_size (map_at h k) < bytes) ->
  alloc_heap_buffer h zone caps bytes mu = (0, h, mu).
Proof.
  intros Hs Hall. unfold alloc_heap_buffer.
  assert (Hscan : scan_up (fun i => negb (block_size (map_at h i) <? bytes)
                                    && negb (free_count (map_at h i) =? 0))
                          0 (Z.to_nat (heap_blocks h)) = None).
  { apply scan_up_None. intros k Hk.
    destruct (Z.ltb_spec (block_size (map_at h k)) bytes); [reflexivity|].
    specialize (Hall k ltac:(lia)). lia. }
  rewrite Hscan. change (is_null 0) with true. cbv iota.
  rewrite cont_scan_oversize by exact Hs.
  change (is_null 0) with true. cbn [negb andb].
  now rewrite andb_false_r.
Qed.


End Confinement.

(** ** Instances of the further theorems *)

Section ExtraInstances.
#[local] Existing Instance host.

Lemma arch_memcpy_s_copies_witness :
  (100 + 4 < 200 \/ 200 + 4 < 100)
  /\ 4 <= 4
  /\ (forall i, 0 <= i < 4 ->
        memcpy sample_store 100 200 4 (100 + i) = sample_store (200 + i))
  /\ (forall a, ~ in_range 100 4 a ->
        memcpy sample_store 100 200 4 a = sample_store a).
Proof.
  apply (arch_memcpy_s_copies sample_store _ 100 4 200 4);
    [lia | lia | lia | lia | lia | lia | reflexivity].
Defined.

Lemma arch_memcpy_s_refuses_touching_witness :
  arch_memcpy_s sample_store 4112 16 4096 16 = (- EINVAL, sample_store).
Proof.
  apply arch_memcpy_s_refuses_touching; lia.
Defined.

Lemma arch_memset_s_fills_witness :
  fst (arch_memset_s sample_store 100 8 421 4) = 0
  /\ (forall i, 0 <= i < 4 ->
        snd (arch_memset_s sample_store 100 8 421 4) (100 + i) = 421 mod 256)
  /\ (forall a, ~ in_range 100 4 a ->
        snd (arch_memset_s sample_store 100 8 421 4) a = sample_store a).
Proof.
  apply (arch_memset_s_fills sample_store 100 8 421 4); lia.
Defined.

Lemma zalloc_zero_fills_witness :
  mem (final_state (_zalloc RZONE_RUNTIME 0 16 0
                            (set_mem sample_store (runtime_registry 3)))
                   (runtime_registry 3)) (4096 + 5) = 0.
Proof.
  apply (proj1 (zalloc_zero_fills RZONE_RUNTIME 0 16 0
                  (set_mem sample_store (runtime_registry 3)) _ 4096 5
                  ltac:(discriminate) ltac:(lia))).
  reflexivity.
Defined.

Lemma host_memcpy_s_checked : memcpy_s_checked.
Proof. intros m dest dest_size src src_size. reflexivity. Defined.

Lemma get_heap_from_ptr_spec_witness :
  Buffer <> System
  /\ in_heap (heap_at (class_heaps Buffer (buffer_registry 4)) 0) 4100
     = true.
Proof.
  apply (proj1 (get_heap_from_ptr_spec 0 4100 (buffer_registry 4))).
  reflexivity.
Defined.

Lemma rfree_ignores_foreign_pointer_witness :
  rfree 0 1300 (buffer_registry 4)
  = Done (set_trace_updated 1 (buffer_registry 4)).
Proof.
  apply rfree_ignores_foreign_pointer.
  - discriminate.
  - reflexivity.
  - reflexivity.
  - intros k Hk. cbn in Hk. lia.
  - intros k Hk. cbn in Hk. assert (k = 0) as -> by lia. reflexivity.
Defined.

Lemma rfree_confined_witness :
  system (freed_state (rfree 0 4096 one_block_registry) one_block_registry)
  = system one_block_registry
  /\ forall c,
       (forall k, get_heap_from_ptr 0 (cached_address 4096)
                                    one_block_registry <> Some (c, k)) ->
       class_heaps c (freed_state (rfree 0 4096 one_block_registry)
                                  one_block_registry)
       = class_heaps c one_block_registry.
Proof.
  apply (rfree_confined 0 4096 one_block_registry). reflexivity.
Defined.

Lemma realloc_null_is_alloc_witness :
  _realloc 0 RZONE_RUNTIME 0 16 0 (runtime_registry 3)
  = _malloc_unlocked RZONE_RUNTIME 0 16 0 (runtime_registry 3)
  /\ _brealloc 0 RZONE_RUNTIME 0 16 0 (runtime_registry 3)
     = Done (_balloc_unlocked RZONE_RUNTIME 0 16 (runtime_registry 3)).
Proof.
  apply realloc_null_is_alloc. discriminate.
Defined.


Lemma sys_heap_1024_ok : sys_heap_ok (sys_heap 1024).
Proof. unfold sys_heap_ok. cbn. lia. Defined.

Lemma rmalloc_sys_inside_heap_witness :
  heap_base (sys_heap 1024) + info_used (heap_info (sys_heap 1024)) <= 1024
  /\ 1024 + 10 <= heap_base (sys_heap 1024) + heap_size (sys_heap 1024)
  /\ (1024 - heap_base (sys_heap 1024)) mod PLATFORM_DCACHE_ALIGN = 0
  /\ sys_heap_ok
       (heap_at (system (final_state (rmalloc_sys RZONE_SYS 0 0 10
                                                  (buffer_registry 4))
                                     (buffer_registry 4))) 0)
  /\ heap_base
       (heap_at (system (final_state (rmalloc_sys RZONE_SYS 0 0 10
                                                  (buffer_registry 4))
                                     (buffer_registry 4))) 0)
     + info_used
         (heap_info
            (heap_at (system (final_state (rmalloc_sys RZONE_SYS 0 0 10
                                                       (buffer_registry 4))
                                          (buffer_registry 4))) 0))
     = 1024 + 10.
Proof.
  apply (rmalloc_sys_inside_heap RZONE_SYS 0 0 10 (buffer_registry 4)).
  - reflexivity.
  - exact sys_heap_1024_ok.
  - reflexivity.
  - lia.
  - cbn. lia.
  - reflexivity.
  - reflexivity.
Defined.

Lemma rmalloc_sys_regions_disjoint_witness :
  1024 + 10 <= 1088
  /\ 1088 + 20 <= heap_base (sys_heap 1024) + heap_size (sys_heap 1024).
Proof.
  apply (rmalloc_sys_regions_disjoint RZONE_SYS 0 10 RZONE_SYS 0 20 0
           (buffer_registry 4)
           (final_state (rmalloc_sys RZONE_SYS 0 0 10 (buffer_registry 4))
                        (buffer_registry 4))
           (final_state
              (rmalloc_sys RZONE_SYS 0 0 20
                 (final_state (rmalloc_sys RZONE_SYS 0 0 10
                                           (buffer_registry 4))
                              (buffer_registry 4)))
              (buffer_registry 4))).
  - reflexivity.
  - exact sys_heap_1024_ok.
  - reflexivity.
  - lia.
  - cbn. lia.
  - lia.
  - cbn. lia.
  - reflexivity.
  - reflexivity.
  - reflexivity.
  - reflexivity.
Defined.

Lemma free_heap_then_allocate_witness :
  exists st1 st2,
    free_heap RZONE_SYS 1 (buffer_registry 4) = Done st1
    /\ heap_info (heap_at (system st1) 1)
       = mk_info 0 (heap_size (sys_heap 1280))
    /\ rmalloc_sys RZONE_SYS 0 1 32 st1
       = Done (heap_base (sys_heap 1280), st2)
    /\ heap_info (heap_at (system st2) 1)
       = mk_info 32 (heap_size (sys_heap 1280) - 32).
Proof.
  apply (proj2 (proj2 (free_heap_then_allocate RZONE_SYS 0 1 32
                         (buffer_registry 4) (sys_heap 1280)))).
  - discriminate.
  - reflexivity.
  - cbn. lia.
  - cbn. lia.
  - cbn. lia.
  - reflexivity.
  - reflexivity.
Defined.

Lemma alloc_block_free_identity_witness :
  exists mu',
    free_block_at (fst (alloc_block (scenario_heap 4) 0))
                  (snd (alloc_block (scenario_heap 4) 0)) sample_store
    = Done (scenario_heap 4, mu').
Proof.
  apply (alloc_block_free_identity (scenario_heap 4) 0
           (fresh_map 16 4 4096) sample_store scenario_heap_ok);
    reflexivity.
Defined.

Lemma fresh_map_below_hint : below_hint_used (fresh_map 16 4 4096).
Proof. intros j Hj. cbn in Hj. lia. Defined.

Lemma alloc_block_hint_witness :
  below_hint_used (map_at (snd (alloc_block (scenario_heap 4) 0)) 0)
  /\ first_free (fresh_map 16 4 4096)
     <= first_free (map_at (snd (alloc_block (scenario_heap 4) 0)) 0).
Proof.
  destruct (alloc_block_hint (scenario_heap 4) 0 (fresh_map 16 4 4096))
    as (Hb & Hm & _).
  - reflexivity.
  - split; vm_compute; [discriminate | reflexivity].
  - exact fresh_map_below_hint.
  - split; [exact Hb | exact Hm].
Defined.

Lemma free_block_at_keeps_hint_bound_witness :
  first_free (map_at three_block_heap 0) = 3
  /\ first_free
       (map_at (fst (final_heap (free_block_at 4112 three_block_heap
                                               sample_store)
                                (three_block_heap, sample_store))) 0) = 1
  /\ below_hint_used
       (map_at (fst (final_heap (free_block_at 4112 three_block_heap
                                               sample_store)
                                (three_block_heap, sample_store))) 0).
Proof.
  split; [reflexivity|]. split; [reflexivity|].
  refine (free_block_at_keeps_hint_bound 4112 three_block_heap _
            sample_store (snd (final_heap
                                 (free_block_at 4112 three_block_heap
                                                sample_store)
                                 (three_block_heap, sample_store))) _ _ 0).
  - intros k j Hj. unfold map_at in Hj |- *.
    destruct (Z.to_nat k) as [|n]; cbn in Hj |- *; [|destruct n; cbn in Hj; lia].
    assert (Hcases : j = 0 \/ j = 1 \/ j = 2) by lia.
    destruct Hcases as [-> | [-> | ->]]; discriminate.
  - reflexivity.
Defined.

Lemma get_ptr_from_heap_first_fit_witness :
  get_ptr_from_heap two_map_heap RZONE_RUNTIME 0 40
  = (zone_alias RZONE_RUNTIME (next_slot (map_at two_map_heap 1)),
     snd (alloc_block two_map_heap 1))
  /\ next_slot (map_at two_map_heap 1) = 4160
  /\ hdr_at (block (map_at (snd (get_ptr_from_heap two_map_heap
                                                    RZONE_RUNTIME 0 40)) 1))
            (first_free (map_at two_map_heap 1))
     = mk_hdr 1 1
  /\ map_at (snd (get_ptr_from_heap two_map_heap RZONE_RUNTIME 0 40)) 0
     = map_at two_map_heap 0.
Proof.
  destruct (proj2 (get_ptr_from_heap_first_fit two_map_heap RZONE_RUNTIME
                     0 40 eq_refl) 1) as (Hres & Hhdr & Hframe).
  - split; vm_compute; [discriminate | reflexivity].
  - vm_compute. discriminate.
  - vm_compute. discriminate.
  - intros k Hk. assert (k = 0) as -> by lia. left. reflexivity.
  - split; [exact Hres|]. split; [reflexivity|]. split; [exact Hhdr|].
    apply (Hframe 0). vm_compute. discriminate.
Defined.

Lemma fresh_map_ok : map_ok (fresh_map 16 4 4096).
Proof.
  unfold map_ok, map_end. cbn.
  change (length (replicate (Z.to_nat 4) hdr0)) with 4%nat. lia.
Defined.

Lemma span_inside_map_witness :
  4096 + 40 <= map_end (fresh_map 16 4 4096)
  /\ first_free (map_at (snd (alloc_cont_blocks (scenario_heap 4) 0 40)) 0)
     = first_free (fresh_map 16 4 4096)
       + span_blocks 40 (block_size (fresh_map 16 4 4096)).
Proof.
  destruct (span_inside_map (scenario_heap 4)
              (snd (alloc_cont_blocks (scenario_heap 4) 0 40)) 0
              (fresh_map 16 4 4096) 40 4096)
    as (_ & _ & _ & _ & Hend & Hff).
  - reflexivity.
  - exact fresh_map_ok.
  - lia.
  - reflexivity.
  - discriminate.
  - split; [exact Hend | exact Hff].
Defined.

Lemma span_from_block_zero_marked_witness :
  (forall j, 0 <= j < span_blocks 40 (block_size (fresh_map 16 4 4096)) ->
     hdr_used
       (hdr_at (block (map_at (snd (alloc_cont_blocks (scenario_heap 4) 0
                                                      40)) 0)) j) = 1)
  /\ (forall j, span_blocks 40 (block_size (fresh_map 16 4 4096)) <= j ->
        hdr_at (block (map_at (snd (alloc_cont_blocks (scenario_heap 4) 0
                                                      40)) 0)) j
        = hdr_at (block (fresh_map 16 4 4096)) j).
Proof.
  apply (span_from_block_zero_marked (scenario_heap 4) _ 0
           (fresh_map 16 4 4096) 40 4096).
  - reflexivity.
  - exact fresh_map_ok.
  - lia.
  - reflexivity.
  - reflexivity.
  - discriminate.
Defined.

Lemma balloc_confined_witness :
  fst (_balloc ZONE_BUFFER 0 16 one_block_registry) = 4112
  /\ system (snd (_balloc ZONE_BUFFER 0 16 one_block_registry))
     = system one_block_registry
  /\ system_runtime (snd (_balloc ZONE_BUFFER 0 16 one_block_registry))
     = system_runtime one_block_registry
  /\ runtime (snd (_balloc ZONE_BUFFER 0 16 one_block_registry))
     = runtime one_block_registry.
Proof.
  split; [reflexivity|].
  destruct (balloc_confined ZONE_BUFFER 0 16 one_block_registry eq_refl)
    as (Hsys & Hsr & Hrt & _).
  split; [exact Hsys|]. split; [exact Hsr | exact Hrt].
Defined.

Lemma init_heap_layout_witness :
  exists st' h',
    init_heap 1024 declared_registry = Done st'
    /\ system st' = system declared_registry
    /\ buffer st' !! 0%nat = Some h'
    /\ heap_map h' !! 1%nat = Some (fresh_map 64 2 (4096 + 4 * 16)).
Proof.
  destruct (proj2 (init_heap_layout 1024 declared_registry eq_refl) eq_refl)
    as (st' & Hinit & Hsys & Hlay).
  destruct (Hlay Buffer 0%nat declared_heap 1%nat (fresh_map 64 2 0))
    as (h' & Hk & _ & Hj).
  - discriminate.
  - reflexivity.
  - reflexivity.
  - intros m Hm. cbn in Hm.
    apply elem_of_cons in Hm as [-> | Hm]; [cbn; lia|].
    apply elem_of_cons in Hm as [-> | Hm]; [cbn; lia|].
    apply elem_of_nil in Hm. contradiction.
  - cbn. lia.
  - cbn. lia.
  - exists st', h'. split; [exact Hinit|]. split; [exact Hsys|].
    split; [exact Hk | exact Hj].
Defined.

Lemma write_pattern_fills_witness :
  write_pattern (buffer (buffer_registry 4)) 1 165 zero_store 4100 = 165.
Proof.
  apply (write_pattern_fills (buffer (buffer_registry 4)) 1 165 zero_store
           0 0 4100).
  - lia.
  - split; vm_compute; [discriminate | reflexivity].
  - split; vm_compute; [discriminate | reflexivity].
Defined.

Lemma alloc_trace_heap_loops_witness :
  alloc_trace_runtime_heap 1000 1 caps_registry = None.
Proof.
  apply (proj1 (alloc_trace_heap_loops 1 caps_registry) 0).
  split; [cbn; lia|]. split; [reflexivity|]. intros k Hk. lia.
Defined.

Lemma realloc_neighbour_copies_nothing_witness :
  reallocate BufferRealloc 4096 ZONE_BUFFER 0 16 0 one_block_registry
  = match (if negb (is_null 4112)
           then _rfree_unlocked 0 4096
                  (final_state
                     (new_allocation BufferRealloc ZONE_BUFFER 0 16 0
                                     one_block_registry)
                     one_block_registry)
           else Done (final_state
                        (new_allocation BufferRealloc ZONE_BUFFER 0 16 0
                                        one_block_registry)
                        one_block_registry)) with
    | Done st3 => Done (4112, st3)
    | Fatal => Fatal
    end.
Proof.
  apply realloc_neighbour_copies_nothing.
  - exact host_memcpy_s_checked.
  - lia.
  - reflexivity.
  - lia.
  - lia.
  - lia.
  - lia.
  - lia.
  - lia.
Defined.

Lemma realloc_copies_new_size_witness :
  (forall i, 0 <= i < 8 ->
     mem (final_state (reallocate BufferRealloc 4096 ZONE_BUFFER 0 8 0
                                  one_block_registry) one_block_registry)
         (4112 + i)
     = mem one_block_registry (4096 + i))
  /\ (forall a, ~ in_range 4112 8 a ->
        mem (final_state (reallocate BufferRealloc 4096 ZONE_BUFFER 0 8 0
                                     one_block_registry) one_block_registry)
            a
        = mem one_block_registry a).
Proof.
  apply (realloc_copies_new_size BufferRealloc 4096 ZONE_BUFFER 0 8 0
           one_block_registry).
  - exact host_memcpy_s_checked.
  - reflexivity.
  - lia.
  - lia.
  - lia.
  - lia.
  - lia.
  - lia.
  - reflexivity.
Defined.

Lemma alloc_heap_buffer_oversize_witness :
  alloc_heap_buffer (scenario_heap 4) ZONE_BUFFER 0 100 sample_store
  = (0, scenario_heap 4, sample_store).
Proof.
  apply alloc_heap_buffer_oversize.
  - reflexivity.
  - intros k Hk. cbn in Hk. assert (k = 0) as -> by lia. reflexivity.
Defined.


End ExtraInstances.
